(** * SmallVector (src/core/smallvec_type.hpp): a shallow embedding

    [SmallVector<T, S>] derives from [std::vector<T>] and adds positional
    insertion, linear search and duplicate-checked insertion on top of it;
    [AutoFreeSmallVector] and [AutoDeleteSmallVector] additionally tear
    down the pointers they hold; [grow] extends any [std::vector].

    Data model of the embedding.
    - A [std::vector<T>] is its element sequence together with the address
      of its buffer ([data()]).  Addresses of [T] objects are integers
      counted in units of [sizeof(T)], which is how [T*] arithmetic counts;
      a misaligned [T*] is therefore not expressible.
    - The buffer's reallocation policy is not part of the header; it is a
      parameter [realloc_base] of the development, and so is the vector's
      [max_size()], beyond which [resize] throws [std::length_error].
      Memory exhaustion is outside the model, as it is outside the
      specification.
    - [int] is 32 bits wide and [std::size_t] is 64 bits wide (LP64); the
      conversions the code performs into these types are written out as
      [to_int] and [to_size_t].  The width of the project's [uint] typedef
      is a parameter where it matters (the loops of the owning vectors).
    - [assert] is modelled as enabled: a failing assertion stops the call.
    - [Insert] calls [std::vector<T>::insert] with a position alone, an
      overload [std::vector] does not have.  The effect of that call is
      modelled from the specification and the header's comment (a new item
      at the position, the following items moved); what the new slot holds
      before the caller stores into it is a parameter, [new_item].
    - The heap is the set of live blocks, each with the operation that
      releases it; [free] and [delete] are defined on the null pointer and
      on a live block of their kind, and undefined otherwise. *)

From Stdlib Require Import ZArith Lia.
From stdpp Require Import base option list gmap.

Local Open Scope Z_scope.

(** ** Machine integers *)

Module Machine.

(** [wrap_unsigned w z]: conversion of [z] to an unsigned type of [w] bits. *)
Definition wrap_unsigned (w z : Z) : Z := z mod 2 ^ w.

(** [wrap_signed w z]: conversion of [z] to a two's complement type of
    [w] bits. *)
Definition wrap_signed (w z : Z) : Z :=
  (z + 2 ^ (w - 1)) mod 2 ^ w - 2 ^ (w - 1).

Definition int_bits : Z := 32.
Definition size_t_bits : Z := 64.

Definition to_int (z : Z) : Z := wrap_signed int_bits z.
Definition to_size_t (z : Z) : Z := wrap_unsigned size_t_bits z.

Definition INT_MAX : Z := 2 ^ (int_bits - 1) - 1.
Definition SIZE_MAX : Z := 2 ^ size_t_bits - 1.

End Machine.

Import Machine.

(** ** The result of a call that starts with an assertion *)

Inductive outcome (St A : Type) : Type :=
| Returns (s : St) (a : A)      (* the call returned [a], leaving state [s] *)
| AssertFails (s : St).         (* the assertion failed in state [s] *)

Arguments Returns {St A} s a.
Arguments AssertFails {St A} s.

(** ** The result of a call that may throw *)

Inductive exception : Type := length_error.

Inductive raising (St A : Type) : Type :=
| Done (s : St) (a : A)             (* the call returned [a], leaving state [s] *)
| Throws (e : exception) (s : St).  (* the call threw [e], leaving state [s] *)

Arguments Done {St A} s a.
Arguments Throws {St A} e s.

(** ** std::vector<T> and SmallVector<T, S> *)

Section Vec.

Context {T : Type}.

(** [operator==] of [T], as [std::find] applies it: element on the left,
    searched value on the right.  No law is assumed of it. *)
Variable T_eq : T -> T -> bool.

(** The value-initialised [T()]. *)
Variable T_default : T.

(** What the slot opened by [Insert] holds when [Insert] returns; the
    source does not determine it. *)
Variable new_item : T.

(** [realloc_base b n m]: address of the buffer after a vector whose
    buffer is at [b] and which holds [n] elements is brought to [m]
    elements.  A vector without a buffer has [b = 0]. *)
Variable realloc_base : Z -> nat -> nat -> Z.

(** [max_size()] of [std::vector<T>]. *)
Variable max_size : Z.

Record vector : Type := Vector { data : Z; items : list T }.

Definition empty_vector : vector := Vector 0 [].

(** [size()] *)
Definition size (v : vector) : Z := Z.of_nat (length (items v)).

(** [operator[]]; out of range it has no defined result. *)
Definition at_index (v : vector) (i : Z) : option T :=
  if i <? 0 then None else items v !! Z.to_nat i.

Definition rebase (v : vector) (m : nat) : Z :=
  realloc_base (data v) (length (items v)) m.

(** [emplace_back(x)] / [push_back(x)] *)
Definition emplace_back (v : vector) (x : T) : vector :=
  Vector (rebase v (S (length (items v)))) (items v ++ [x]).

(** [insert(begin() + pos, x)] for [pos <= size()] *)
Definition insert (v : vector) (pos : nat) (x : T) : vector :=
  Vector (rebase v (S (length (items v))))
         (take pos (items v) ++ x :: drop pos (items v)).

(** Modelled from the spec: the one-argument [std::vector<T>::insert(position)]
    that [Insert] calls.  [std::vector] has no overload of [insert] that
    takes a position alone, so the call has no meaning of its own.  The
    specification says of the insertion that the new element becomes the
    element at the position and that all elements previously at the position
    and after are shifted one slot later, and the header's comment on
    [Insert] says the same (a new item at the position, all following items
    moved).  The content of the new slot is [new_item]. *)
Definition insert_position (v : vector) (pos : nat) : vector :=
  insert v pos new_item.

(** [resize(n)]: truncates, or pads with value-initialised elements; a
    longer size than [max_size()] makes it throw [std::length_error] and
    leave the vector as it was. *)
Definition resize (v : vector) (n : Z) : raising vector unit :=
  if (size v <? n) && (max_size <? n) then Throws length_error v
  else Done (Vector (rebase v (Z.to_nat n))
                    (take (Z.to_nat n) (items v)
                     ++ replicate (Z.to_nat n - length (items v)) T_default))
            tt.

(** [clear()]: the buffer stays where it is. *)
Definition clear (v : vector) : vector := Vector (data v) [].

(** Copy construction from [other]: a fresh buffer. *)
Definition copy_construct (other : vector) : vector :=
  Vector (realloc_base 0 0 (length (items other))) (items other).

(** [operator=(other)] *)
Definition assign (v other : vector) : vector :=
  Vector (rebase v (length (items other))) (items other).

(** [std::find(begin(), end(), x)], as the distance of the returned
    iterator from [begin()]; [end()] is at distance [size()]. *)
Fixpoint std_find (l : list T) (x : T) : nat :=
  match l with
  | [] => 0%nat
  | a :: l' => if T_eq a x then 0%nat else S (std_find l' x)
  end.

(** Some element of [l] compares equal to [x]. *)
Definition has_equal (l : list T) (x : T) : Prop :=
  exists a, a ∈ l /\ T_eq a x = true.

(** No element of [l] compares equal to [x]. *)
Definition none_equal (l : list T) (x : T) : Prop :=
  forall a, a ∈ l -> T_eq a x = false.

(** [SmallVector<T, S>]: a [std::vector<T>] tagged with the allocation
    step [S], which no member reads. *)
Record SmallVector (S : N) : Type := SV { base : vector }.

Arguments SV {S} base.
Arguments base {S} s.

(** [SmallVector() = default] *)
Definition SmallVector_new (S : N) : SmallVector S := SV empty_vector.

(** [template <uint X> SmallVector(const SmallVector<T, X> &other)] *)
Definition SmallVector_copy {X : N} (S : N) (other : SmallVector X)
  : SmallVector S :=
  SV (copy_construct (base other)).

(** [template <uint X> SmallVector &operator=(const SmallVector<T, X> &other)];
    the result is [*this]. *)
Definition SmallVector_assign {S X : N} (v : SmallVector S)
           (other : SmallVector X) : SmallVector S :=
  SV (assign (base v) (base other)).

(** [Begin()] *)
Definition Begin {S} (v : SmallVector S) : Z := data (base v).

(** [End()] *)
Definition End {S} (v : SmallVector S) : Z := data (base v) + size (base v).

(** [*p] for a [T *p] into the vector *)
Definition deref {S} (v : SmallVector S) (p : Z) : option T :=
  at_index (base v) (p - Begin v).

(** [*p = x] for a [T *p] into the vector; no defined result when [p]
    is not the address of an element. *)
Definition store {S} (v : SmallVector S) (p : Z) (x : T)
  : option (SmallVector S) :=
  if (Begin v <=? p) && (p <? End v)
  then Some (SV (Vector (data (base v))
                        (<[Z.to_nat (p - Begin v) := x]> (items (base v)))))
  else None.

(** [T *Insert(T *item)].  [Insert] receives a position and no value; the
    caller fills the new element in through the returned pointer.  Past the
    assertion [0 <= item - Begin() <= size()], so the conversion of the
    difference to [size_t] is exact for every vector that fits the address
    space. *)
Definition Insert {S} (v : SmallVector S) (item : Z)
  : outcome (SmallVector S) Z :=
  if (Begin v <=? item) && (item <=? End v) then
    let start := item - Begin v in
    let v' : SmallVector S := SV (insert_position (base v) (Z.to_nat start)) in
    Returns v' (Begin v' + start)
  else AssertFails v.

(** Modelled from the spec: [InsertAt(position, value)].  The header has no
    operation that takes the value: the specification's insertion is the
    caller's [*Insert(position) = value], the call of [Insert] followed by
    the store of the value through the pointer it returns.  [None]: the
    store has no defined result. *)
Definition InsertAt {S} (v : SmallVector S) (position : Z) (value : T)
  : option (outcome (SmallVector S) Z) :=
  match Insert v position with
  | Returns v' r => (fun v'' => Returns v'' r) <$> store v' r value
  | AssertFails s => Some (AssertFails s)
  end.

(** [int FindIndex(const T &item) const].  The conditional has type
    [ptrdiff_t]; the [return] converts it to [int]. *)
Definition FindIndex {S} (v : SmallVector S) (item : T) : Z :=
  let it := std_find (items (base v)) item in
  to_int (if (it =? length (items (base v)))%nat then -1 else Z.of_nat it).

(** [bool Include(const T &item)] *)
Definition Include {S} (v : SmallVector S) (item : T)
  : SmallVector S * bool :=
  let is_member :=
    negb (std_find (items (base v)) item =? length (items (base v)))%nat in
  (if negb is_member then SV (emplace_back (base v) item) else v, is_member).

(** [T *grow(std::vector<T> &vec, std::size_t num)]; [pos + num] is
    computed in [size_t], and what [resize] throws leaves [grow]. *)
Definition grow (vec : vector) (num : Z) : raising vector Z :=
  let pos := size vec in
  match resize vec (to_size_t (pos + num)) with
  | Done vec' _ => Done vec' (data vec' + pos)
  | Throws e s => Throws e s
  end.

End Vec.

Arguments SV {T S} base.
Arguments base {T S} s.

(** ** The owning vectors *)

(** The two teardown operations: [free(p)] and [delete p]. *)
Inductive teardown : Type := RawFree | FullDelete.

Definition teardown_eqb (a b : teardown) : bool :=
  match a, b with
  | RawFree, RawFree | FullDelete, FullDelete => true
  | _, _ => false
  end.

(** The heap and what the program has done to it through [free] and
    [delete]: the live blocks, each with the operation that releases it
    ([RawFree] for a block from [malloc], [FullDelete] for an object from
    [new]); every call in order; and the blocks those calls have torn
    down. *)
Record world : Type :=
  World { live : gmap Z teardown;
          invoked : list (teardown * Z);
          released : list (teardown * Z) }.

(** A call of [free] or [delete] on [p].  On the null pointer, which is
    address 0, it does nothing.  On a live block of its kind it tears the
    block down, which is then live no more.  On anything else (a block
    already released, a block of the other kind, an address that is no
    block) the behaviour is undefined: [None]. *)
Definition teardown_call (k : teardown) (p : Z) (w : world) : option world :=
  if p =? 0 then Some (World (live w) (invoked w ++ [(k, p)]) (released w))
  else match live w !! p with
       | Some k' =>
           if teardown_eqb k' k
           then Some (World (base.delete p (live w))
                            (invoked w ++ [(k, p)])
                            (released w ++ [(k, p)]))
           else None
       | None => None
       end.

(** The operation [k] called on the pointers of [l], front to back. *)
Fixpoint teardown_each (k : teardown) (l : list Z) (w : world)
  : option world :=
  match l with
  | [] => Some w
  | p :: l' => w' ← teardown_call k p w; teardown_each k l' w'
  end.

(** [owned k l w]: the non-null pointers of [l] are pairwise different and
    each is a live block of [w] that [k] releases. *)
Definition owned (k : teardown) (l : list Z) (w : world) : Prop :=
  NoDup (filter (fun p => p <> 0) l)
  /\ forall p, p ∈ l -> p <> 0 -> live w !! p = Some k.

(** [torn_down k l w w']: between [w] and [w'] the operation [k] has been
    called on the pointers of [l], once per position and front to back; it
    has torn down those that are not null, which are live no more; no other
    block has changed. *)
Definition torn_down (k : teardown) (l : list Z) (w w' : world) : Prop :=
  invoked w' = invoked w ++ map (pair k) l
  /\ released w' = released w ++ map (pair k) (filter (fun p => p <> 0) l)
  /\ (forall p, p ∈ l -> p <> 0 -> live w' !! p = None)
  /\ (forall p, p ∉ l -> live w' !! p = live w !! p).

Definition free : Z -> world -> option world := teardown_call RawFree.
Definition delete : Z -> world -> option world := teardown_call FullDelete.

Section Owning.

(** The width in bits of [uint], whose typedef is not in this header. *)
Variable uint_bits : Z.

Variable realloc_base : Z -> nat -> nat -> Z.

Definition to_uint (z : Z) : Z := wrap_unsigned uint_bits z.

(** [for (uint i = i0; i < n; i++) body(i);] run for at most [fuel]
    evaluations of the condition.  [None]: the loop has not finished
    within [fuel], or [body] had no defined result. *)
Fixpoint for_uint (fuel : nat) (n : Z) (body : Z -> world -> option world)
         (i : Z) (w : world) : option world :=
  match fuel with
  | O => None
  | S fuel' =>
      if i <? n then
        match body i w with
        | Some w' => for_uint fuel' n body (to_uint (i + 1)) w'
        | None => None
        end
      else Some w
  end.

(** The counter and the world after [k] iterations of that loop; [None]
    when the loop has exited before, or [body] had no defined result. *)
Fixpoint for_uint_after (k : nat) (n : Z) (body : Z -> world -> option world)
         (i : Z) (w : world) : option (Z * world) :=
  match k with
  | O => Some (i, w)
  | S k' =>
      if i <? n then
        match body i w with
        | Some w' => for_uint_after k' n body (to_uint (i + 1)) w'
        | None => None
        end
      else None
  end.

Record AutoFreeSmallVector (S : N) : Type :=
  AutoFree { af_vector : @SmallVector Z S }.

Record AutoDeleteSmallVector (S : N) : Type :=
  AutoDelete { ad_vector : @SmallVector Z S }.

Arguments AutoFree {S} af_vector.
Arguments af_vector {S} a.
Arguments AutoDelete {S} ad_vector.
Arguments ad_vector {S} a.

(** [AutoFreeSmallVector::Clear()] *)
Definition AutoFreeSmallVector_Clear {S} (fuel : nat)
           (v : AutoFreeSmallVector S) (w : world)
  : option (AutoFreeSmallVector S * world) :=
  let vec := base (af_vector v) in
  w' ← for_uint fuel (size vec)
                (fun i w => p ← at_index vec i; free p w) 0 w;
  Some (AutoFree (SV (clear vec)), w').

(** The loop of [AutoFreeSmallVector::Clear()] after [k] iterations. *)
Definition AutoFreeSmallVector_Clear_after {S} (k : nat)
           (v : AutoFreeSmallVector S) (w : world) : option (Z * world) :=
  let vec := base (af_vector v) in
  for_uint_after k (size vec)
                 (fun i w => p ← at_index vec i; free p w) 0 w.

(** [~AutoFreeSmallVector()] *)
Definition AutoFreeSmallVector_destroy {S} (fuel : nat)
           (v : AutoFreeSmallVector S) (w : world) : option world :=
  snd <$> AutoFreeSmallVector_Clear fuel v w.

(** [AutoDeleteSmallVector::Clear()] *)
Definition AutoDeleteSmallVector_Clear {S} (fuel : nat)
           (v : AutoDeleteSmallVector S) (w : world)
  : option (AutoDeleteSmallVector S * world) :=
  let vec := base (ad_vector v) in
  w' ← for_uint fuel (size vec)
                (fun i w => p ← at_index vec i; delete p w) 0 w;
  Some (AutoDelete (SV (clear vec)), w').

(** The loop of [AutoDeleteSmallVector::Clear()] after [k] iterations. *)
Definition AutoDeleteSmallVector_Clear_after {S} (k : nat)
           (v : AutoDeleteSmallVector S) (w : world) : option (Z * world) :=
  let vec := base (ad_vector v) in
  for_uint_after k (size vec)
                 (fun i w => p ← at_index vec i; delete p w) 0 w.

(** [~AutoDeleteSmallVector()] *)
Definition AutoDeleteSmallVector_destroy {S} (fuel : nat)
           (v : AutoDeleteSmallVector S) (w : world) : option world :=
  snd <$> AutoDeleteSmallVector_Clear fuel v w.



End Owning.

Arguments AutoFree {S} af_vector.
Arguments af_vector {S} a.
Arguments AutoDelete {S} ad_vector.
Arguments ad_vector {S} a.

(** ** Relating instantiations that differ in the allocation step only *)

(** The same [std::vector<T>] seen as a [SmallVector<T, S>]. *)
Definition retag {T : Type} {X : N} (S : N) (v : @SmallVector T X)
  : @SmallVector T S := SV (base v).

Definition retag_free {X : N} (S : N) (a : AutoFreeSmallVector X)
  : AutoFreeSmallVector S := AutoFree (retag S (af_vector a)).

Definition retag_delete {X : N} (S : N) (a : AutoDeleteSmallVector X)
  : AutoDeleteSmallVector S := AutoDelete (retag S (ad_vector a)).

Definition outcome_map {St St' A : Type} (f : St -> St') (o : outcome St A)
  : outcome St' A :=
  match o with
  | Returns s a => Returns (f s) a
  | AssertFails s => AssertFails (f s)
  end.

(** ** Concrete instances used in the examples *)

Module Examples.

(** A policy that moves the buffer whenever the vector gets longer. *)
Definition moving_alloc (b : Z) (n m : nat) : Z :=
  if (n <? m)%nat then b + 4096 else b.

(** A [SmallVector<int, 8>] with its buffer at [b]. *)
Definition ints (b : Z) (l : list Z) : @SmallVector Z 8 := SV (Vector b l).

(** A [AutoFreeSmallVector<char *, 4>] (the header's [StringList]). *)
Definition strings (b : Z) (l : list Z) : AutoFreeSmallVector 4 :=
  AutoFree (SV (Vector b l)).

Definition objects (b : Z) (l : list Z) : AutoDeleteSmallVector 4 :=
  AutoDelete (SV (Vector b l)).

(** A heap whose live blocks are the pointers [ps], each released by [k],
    on which nothing has been called yet. *)
Definition heap_of (k : teardown) (ps : list Z) : world :=
  World (list_to_map ((fun p => (p, k)) <$> ps)) [] [].

(** [max_size()] of a [std::vector<int>]: [PTRDIFF_MAX / sizeof(int)]. *)
Definition int_max_size : Z := 2 ^ 61 - 1.

End Examples.

(** ** Sequences of calls *)

Section Calls.

Context {T : Type}.
Variable T_eq : T -> T -> bool.
Variable realloc_base : Z -> nat -> nat -> Z.

(** No element of [l] compares equal to a later one. *)
Definition distinct_under (l : list T) : Prop :=
  forall (i j : nat) (a b : T),
    (i < j)%nat -> l !! i = Some a -> l !! j = Some b -> T_eq a b = false.

(** [for (const T &x : xs) v.Include(x);] *)
Definition Include_all {S} (v : @SmallVector T S) (xs : list T)
  : @SmallVector T S :=
  fold_left (fun v x => (Include T_eq realloc_base v x).1) xs v.

End Calls.

(** The copy constructor that the language declares for
    [AutoFreeSmallVector], which declares none itself: it copies the
    [SmallVector] base with [SmallVector(const SmallVector &) = default]. *)
Definition AutoFreeSmallVector_copy (realloc_base : Z -> nat -> nat -> Z)
           {S : N} (other : AutoFreeSmallVector S) : AutoFreeSmallVector S :=
  AutoFree (SmallVector_copy realloc_base S (af_vector other)).

(** The same for [AutoDeleteSmallVector]. *)
Definition AutoDeleteSmallVector_copy (realloc_base : Z -> nat -> nat -> Z)
           {S : N} (other : AutoDeleteSmallVector S) : AutoDeleteSmallVector S :=
  AutoDelete (SmallVector_copy realloc_base S (ad_vector other)).

(** * Properties *)

(** ** Machine integers *)

Lemma to_int_exact (z : Z) : - INT_MAX - 1 <= z <= INT_MAX -> to_int z = z.
Proof.
  unfold to_int, wrap_signed, INT_MAX, int_bits. intros Hz.
  rewrite Z.mod_small; lia.
Qed.

Lemma to_size_t_exact (z : Z) : 0 <= z <= SIZE_MAX -> to_size_t z = z.
Proof.
  unfold to_size_t, wrap_unsigned, SIZE_MAX, size_t_bits. intros Hz.
  apply Z.mod_small. lia.
Qed.

(** ** Begin, End and positions *)

Section Positions.

Context {T : Type}.
Variable new_item : T.
Variable realloc_base : Z -> nat -> nat -> Z.

Implicit Types (l : list T) (x : T).

Lemma at_index_of_nat (v : @vector T) (i : nat) :
  at_index v (Z.of_nat i) = items v !! i.
Proof.
  unfold at_index. destruct (Z.ltb_spec (Z.of_nat i) 0) as [H|H]; [lia|].
  by rewrite Nat2Z.id.
Qed.

Lemma deref_Begin_plus {S} (v : @SmallVector T S) (i : nat) :
  deref v (Begin v + Z.of_nat i) = items (base v) !! i.
Proof.
  unfold deref. replace (Begin v + Z.of_nat i - Begin v) with (Z.of_nat i) by lia.
  apply at_index_of_nat.
Qed.

(** C8. In every container state [End() - Begin()] is the size, and for
    every index [i] below the size the element at [Begin() + i] exists and
    is the element at index [i]; [Begin()] is the address of the buffer
    and [End()] the address one past its last element. *)
Theorem Begin_End_span {S} (v : @SmallVector T S) :
  End v - Begin v = size (base v)
  /\ Begin v = data (base v)
  /\ End v = data (base v) + Z.of_nat (length (items (base v)))
  /\ forall i : nat,
       deref v (Begin v + Z.of_nat i) = items (base v) !! i
       /\ (Z.of_nat i < size (base v) ->
           is_Some (deref v (Begin v + Z.of_nat i))
           /\ Begin v <= Begin v + Z.of_nat i < End v).
Proof.
  split; [unfold End, Begin; lia|]. split; [reflexivity|]. split; [reflexivity|].
  intros i. split; [apply deref_Begin_plus|]. intros Hi. split.
  - rewrite deref_Begin_plus. apply lookup_lt_is_Some. unfold size in Hi. lia.
  - unfold End, Begin. lia.
Qed.

(** The assertion of [Insert] decides whether the call proceeds. *)
Lemma Insert_in_range {S} (v : @SmallVector T S) (p : Z) :
  Begin v <= p <= End v ->
  Insert new_item realloc_base v p
  = Returns (SV (insert realloc_base (base v) (Z.to_nat (p - Begin v)) new_item))
            (realloc_base (data (base v)) (length (items (base v)))
                          (Datatypes.S (length (items (base v))))
             + (p - Begin v)).
Proof.
  intros [H1 H2]. unfold Insert.
  destruct (Z.leb_spec (Begin v) p); [|lia].
  destruct (Z.leb_spec p (End v)); [|lia]. reflexivity.
Qed.

Lemma Insert_out_of_range {S} (v : @SmallVector T S) (p : Z) :
  ~ (Begin v <= p <= End v) ->
  Insert new_item realloc_base v p = AssertFails v.
Proof.
  intros H. unfold Insert.
  destruct (Z.leb_spec (Begin v) p); destruct (Z.leb_spec p (End v));
    simpl; try reflexivity. lia.
Qed.

(** C10. [Insert] checks its position with an assertion: the call
    proceeds (returns) exactly when the position is the address of a slot
    or the end position, that is [Begin() + i] for some [0 <= i <= size];
    for any other position the assertion fails with the vector as it was
    before the call. *)
Theorem Insert_asserts_position {S} (v : @SmallVector T S) (p : Z) :
  ((exists v' r, Insert new_item realloc_base v p = Returns v' r)
     <-> Begin v <= p <= End v)
  /\ (Begin v <= p <= End v
        <-> exists i : nat, (i <= length (items (base v)))%nat
                            /\ p = Begin v + Z.of_nat i)
  /\ (~ (Begin v <= p <= End v)
        -> Insert new_item realloc_base v p = AssertFails v).
Proof.
  split; [|split].
  - split.
    + intros (v' & r & H).
      destruct (decide (Begin v <= p <= End v)) as [Hin|Hout]; [done|].
      rewrite (Insert_out_of_range v p Hout) in H. discriminate.
    + intros Hin. rewrite (Insert_in_range v p Hin). eauto.
  - unfold End, Begin, size. split.
    + intros Hin. exists (Z.to_nat (p - data (base v))). split; lia.
    + intros (i & Hi & ->). lia.
  - apply Insert_out_of_range.
Qed.

End Positions.

(** ** Insert *)

Section InsertFacts.

Context {T : Type}.
Variable new_item : T.
Variable realloc_base : Z -> nat -> nat -> Z.

Implicit Types (l : list T) (x d : T) (i j : nat).








End InsertFacts.

(** ** FindIndex and Include *)

Section SearchFacts.

Context {T : Type}.
Variable T_eq : T -> T -> bool.
Variable realloc_base : Z -> nat -> nat -> Z.

Implicit Types (l : list T) (x a b : T) (i j : nat).

Lemma none_equal_not_has l x : none_equal T_eq l x <-> ~ has_equal T_eq l x.
Proof.
  split.
  - intros Hn (a & Ha & He). rewrite (Hn a Ha) in He. discriminate.
  - intros Hh a Ha. destruct (T_eq a x) eqn:E; [|done].
    exfalso. apply Hh. by exists a.
Qed.

Lemma std_find_le l x : (std_find T_eq l x <= length l)%nat.
Proof. induction l as [|a l IH]; simpl; [lia|]. destruct (T_eq a x); lia. Qed.

Lemma std_find_before l x j b :
  (j < std_find T_eq l x)%nat -> l !! j = Some b -> T_eq b x = false.
Proof.
  revert j. induction l as [|a l IH]; intros j; simpl; [lia|].
  destruct (T_eq a x) eqn:E; [lia|]. intros Hj.
  destruct j as [|j]; simpl.
  - by intros [= <-].
  - apply IH. lia.
Qed.

Lemma std_find_hit l x :
  (std_find T_eq l x < length l)%nat ->
  exists a, l !! std_find T_eq l x = Some a /\ T_eq a x = true.
Proof.
  induction l as [|a l IH]; simpl; [lia|].
  destruct (T_eq a x) eqn:E.
  - intros _. by exists a.
  - intros H. apply IH. lia.
Qed.

Lemma std_find_end l x :
  std_find T_eq l x = length l <-> none_equal T_eq l x.
Proof.
  split.
  - intros He a [j Hj]%list_elem_of_lookup_1.
    apply (std_find_before l x j a); [|done].
    rewrite He. by eapply lookup_lt_Some.
  - intros Hn. pose proof (std_find_le l x) as Hle.
    destruct (decide (std_find T_eq l x = length l)) as [|Hne]; [done|].
    destruct (std_find_hit l x) as (a & Ha & He); [lia|].
    rewrite (Hn a) in He; [discriminate|]. by eapply list_elem_of_lookup_2.
Qed.

Lemma std_find_found l x :
  (std_find T_eq l x < length l)%nat <-> has_equal T_eq l x.
Proof.
  pose proof (std_find_le l x) as Hle.
  pose proof (std_find_end l x) as He.
  pose proof (none_equal_not_has l x) as Hn.
  split.
  - intros Hlt. destruct (std_find_hit l x Hlt) as (a & Ha & Hq).
    exists a. split; [by eapply list_elem_of_lookup_2|done].
  - intros Hh. destruct (decide (std_find T_eq l x = length l)) as [Heq|]; [|lia].
    exfalso. apply Hn; [|exact Hh]. by apply He.
Qed.

(** The search passes over a run of elements that do not compare equal. *)
Lemma std_find_skip (n : nat) a x l :
  T_eq a x = false ->
  std_find T_eq (replicate n a ++ l) x = (n + std_find T_eq l x)%nat.
Proof.
  intros Ha. induction n as [|n IH]; [done|].
  rewrite replicate_S. simpl. by rewrite Ha, IH.
Qed.

(** [FindIndex] before the conversion of its result to [int]. *)
Lemma FindIndex_unfold {S} (v : @SmallVector T S) x :
  FindIndex T_eq v x
  = to_int (if decide (std_find T_eq (items (base v)) x = length (items (base v)))
            then -1 else Z.of_nat (std_find T_eq (items (base v)) x)).
Proof.
  unfold FindIndex. f_equal.
  destruct (Nat.eqb_spec (std_find T_eq (items (base v)) x)
                         (length (items (base v))));
    by destruct (decide _).
Qed.

Lemma FindIndex_absent {S} (v : @SmallVector T S) x :
  none_equal T_eq (items (base v)) x -> FindIndex T_eq v x = -1.
Proof.
  intros Hn. rewrite FindIndex_unfold.
  destruct (decide _) as [|Hne]; [reflexivity|].
  exfalso. apply Hne. by apply std_find_end.
Qed.

Lemma FindIndex_present {S} (v : @SmallVector T S) x :
  size (base v) <= INT_MAX + 1 ->
  has_equal T_eq (items (base v)) x ->
  FindIndex T_eq v x = Z.of_nat (std_find T_eq (items (base v)) x)
  /\ (std_find T_eq (items (base v)) x < length (items (base v)))%nat.
Proof.
  intros Hsz Hh. apply std_find_found in Hh. split; [|done].
  rewrite FindIndex_unfold. destruct (decide _) as [|_]; [lia|].
  apply to_int_exact. unfold size in Hsz. unfold INT_MAX, int_bits in *. lia.
Qed.

(** X13. For a container of at most [INT_MAX + 1]
    elements: if some element compares equal to [x], [FindIndex(x)] is
    the lowest index whose element compares equal to [x]; if none does,
    it is the "not found" result -1; on an empty container it is -1 for
    every [x]. *)
Theorem FindIndex_lowest_index {S} (v : @SmallVector T S) (x : T) :
  size (base v) <= INT_MAX + 1 ->
  (has_equal T_eq (items (base v)) x ->
     exists i a,
       FindIndex T_eq v x = Z.of_nat i
       /\ items (base v) !! i = Some a /\ T_eq a x = true
       /\ forall j b, (j < i)%nat -> items (base v) !! j = Some b ->
                      T_eq b x = false)
  /\ (none_equal T_eq (items (base v)) x -> FindIndex T_eq v x = -1)
  /\ (items (base v) = [] -> FindIndex T_eq v x = -1).
Proof.
  intros Hsz. split; [|split].
  - intros Hh. destruct (FindIndex_present v x Hsz Hh) as [HF Hlt].
    destruct (std_find_hit _ _ Hlt) as (a & Ha & He).
    exists (std_find T_eq (items (base v)) x), a.
    split; [done|]. split; [done|]. split; [done|].
    intros j b. apply std_find_before.
  - apply FindIndex_absent.
  - intros He. apply FindIndex_absent. rewrite He. intros a Ha.
    by apply elem_of_nil in Ha.
Qed.

(** X14. For a container of at most [INT_MAX + 1]
    elements: the result of [FindIndex] is either -1 or an index in
    [0, size); it is -1 exactly when no element compares equal to [x],
    and non-negative exactly when some element does. *)
Theorem FindIndex_sentinel {S} (v : @SmallVector T S) (x : T) :
  size (base v) <= INT_MAX + 1 ->
  (FindIndex T_eq v x = -1 \/ 0 <= FindIndex T_eq v x < size (base v))
  /\ (FindIndex T_eq v x = -1 <-> none_equal T_eq (items (base v)) x)
  /\ (0 <= FindIndex T_eq v x <-> has_equal T_eq (items (base v)) x).
Proof.
  intros Hsz.
  destruct (decide (std_find T_eq (items (base v)) x = length (items (base v))))
    as [Hend|Hne].
  - assert (Hn : none_equal T_eq (items (base v)) x) by by apply std_find_end.
    rewrite (FindIndex_absent v x Hn).
    split; [by left|]. split; [done|]. split; [lia|].
    intros Hh. exfalso. by apply (none_equal_not_has (items (base v)) x).
  - pose proof (std_find_le (items (base v)) x) as Hle.
    assert (Hh : has_equal T_eq (items (base v)) x) by (apply std_find_found; lia).
    destruct (FindIndex_present v x Hsz Hh) as [-> Hlt].
    split; [right; unfold size; lia|]. split; [|split; [done|lia]].
    split; [lia|]. intros Hn. exfalso.
    by apply (none_equal_not_has (items (base v)) x).
Qed.

(** C2. If no element compares equal to [x], [Include(x)] appends [x]
    (the size grows by one, every prior element stays at its index) and
    returns false; if some element does, it returns true and leaves the
    container as it was.  The result is true exactly when [x] was a
    member before the call. *)
Theorem Include_reports_prior_membership {S} (v : @SmallVector T S) (x : T) :
  (none_equal T_eq (items (base v)) x ->
     Include T_eq realloc_base v x
     = (SV (emplace_back realloc_base (base v) x), false)
     /\ items (base (Include T_eq realloc_base v x).1) = items (base v) ++ [x]
     /\ size (base (Include T_eq realloc_base v x).1) = size (base v) + 1
     /\ forall j, (j < length (items (base v)))%nat ->
                  items (base (Include T_eq realloc_base v x).1) !! j
                  = items (base v) !! j)
  /\ (has_equal T_eq (items (base v)) x ->
        Include T_eq realloc_base v x = (v, true))
  /\ ((Include T_eq realloc_base v x).2 = true
        <-> has_equal T_eq (items (base v)) x).
Proof.
  pose proof (std_find_end (items (base v)) x) as Hend.
  pose proof (none_equal_not_has (items (base v)) x) as Hnh.
  unfold Include.
  destruct (Nat.eqb_spec (std_find T_eq (items (base v)) x)
                         (length (items (base v)))) as [He|Hne]; simpl.
  - split; [|split].
    + intros _. split; [done|]. split; [done|].
      split; [unfold size; simpl; rewrite length_app; simpl; lia|].
      intros j Hj. by apply lookup_app_l.
    + intros Hh. exfalso. apply Hnh; [|done]. by apply Hend.
    + split; [done|]. intros Hh. exfalso. apply Hnh; [|done]. by apply Hend.
  - assert (Hh : has_equal T_eq (items (base v)) x).
    { apply std_find_found. pose proof (std_find_le (items (base v)) x). lia. }
    split; [|split].
    + intros Hn. exfalso. by apply Hnh.
    + done.
    + done.
Qed.

End SearchFacts.

(** ** grow *)

Section GrowFacts.

Context {T : Type}.
Variable T_default : T.
Variable realloc_base : Z -> nat -> nat -> Z.
Variable max_size : Z.

Lemma resize_longer (v : @vector T) (k : nat) :
  size v + Z.of_nat k <= max_size ->
  resize T_default realloc_base max_size v (size v + Z.of_nat k)
  = Done (Vector (rebase realloc_base v (length (items v) + k))
                 (items v ++ replicate k T_default)) tt.
Proof.
  intros Hfit. unfold resize.
  destruct (Z.ltb_spec max_size (size v + Z.of_nat k)) as [Hlt|_]; [lia|].
  rewrite andb_false_r.
  replace (Z.to_nat (size v + Z.of_nat k)) with (length (items v) + k)%nat
    by (unfold size; lia).
  rewrite take_ge by lia. do 4 f_equal. lia.
Qed.

(** The result of [grow] when the new size is within [max_size()]. *)
Lemma grow_result (vec : @vector T) (num : Z) :
  0 <= num -> size vec + num <= max_size -> max_size <= SIZE_MAX ->
  grow T_default realloc_base max_size vec num
  = Done (Vector (rebase realloc_base vec (length (items vec) + Z.to_nat num))
                 (items vec ++ replicate (Z.to_nat num) T_default))
         (rebase realloc_base vec (length (items vec) + Z.to_nat num)
          + size vec).
Proof.
  intros Hnum Hfit Hmax. unfold grow.
  rewrite to_size_t_exact by (unfold size in *; lia).
  replace (size vec + num) with (size vec + Z.of_nat (Z.to_nat num)) by lia.
  rewrite resize_longer by lia. reflexivity.
Qed.

(** C6, as the code has it.  For a buffer of size [n] and a count [c]
    with [n + c] within [max_size()]: [grow] returns, having brought the
    buffer to size [n + c], the old elements staying in place and the [c]
    new ones being value-initialised, and it returns the address of index
    [n], which is the first new element when [c > 0]. *)
Theorem grow_extends (vec : @vector T) (num : Z) :
  0 <= num -> size vec + num <= max_size -> max_size <= SIZE_MAX ->
  exists (vec' : @vector T) (p : Z),
    grow T_default realloc_base max_size vec num = Done vec' p
    /\ items vec' = items vec ++ replicate (Z.to_nat num) T_default
    /\ size vec' = size vec + num
    /\ p = data vec' + size vec
    /\ (forall j, (j < length (items vec))%nat ->
                  items vec' !! j = items vec !! j)
    /\ (forall k, (k < Z.to_nat num)%nat ->
                  at_index vec' (p - data vec' + Z.of_nat k) = Some T_default).
Proof.
  intros Hnum Hfit Hmax. rewrite (grow_result vec num Hnum Hfit Hmax).
  eexists _, _. split; [reflexivity|]. cbn [items data].
  split; [reflexivity|].
  split; [unfold size; cbn [items]; rewrite length_app, length_replicate; lia|].
  split; [reflexivity|].
  split; [intros j Hj; by apply lookup_app_l|].
  intros k Hk.
  match goal with |- at_index _ ?z = _ =>
    replace z with (Z.of_nat (length (items vec) + k)) by (unfold size; lia) end.
  rewrite at_index_of_nat. cbn [items].
  rewrite lookup_app_r by lia.
  apply lookup_replicate_2. lia.
Qed.

End GrowFacts.

(** ** The allocation step *)

Section StepFacts.

Context {T : Type}.
Variable T_eq : T -> T -> bool.
Variable new_item : T.
Variable realloc_base : Z -> nat -> nat -> Z.

(** C7. Between containers of one element type and any two allocation
    steps [S] and [X], copy construction and copy assignment are defined
    and give the element sequence and the size of the source; and every
    operation gives, on a container of step [X], the result it gives on
    the same vector with step [S]. *)
Theorem allocation_step_unobservable (S X : N) (v : @SmallVector T S)
        (other : @SmallVector T X) (x : T) (p : Z) :
  (items (base (SmallVector_copy realloc_base S other)) = items (base other)
   /\ size (base (SmallVector_copy realloc_base S other)) = size (base other)
   /\ items (base (SmallVector_assign realloc_base v other)) = items (base other)
   /\ size (base (SmallVector_assign realloc_base v other)) = size (base other))
  /\ (SmallVector_copy realloc_base S other
      = retag S (SmallVector_copy realloc_base X other)
      /\ SmallVector_assign realloc_base v other
         = SmallVector_assign realloc_base v (retag S other))
  /\ (Begin (retag X v) = Begin v
      /\ End (retag X v) = End v
      /\ deref (retag X v) p = deref v p
      /\ store (retag X v) p x = retag X <$> store v p x
      /\ FindIndex T_eq (retag X v) x = FindIndex T_eq v x
      /\ Include T_eq realloc_base (retag X v) x
         = (retag X (Include T_eq realloc_base v x).1,
            (Include T_eq realloc_base v x).2)
      /\ Insert new_item realloc_base (retag X v) p
         = outcome_map (retag X) (Insert new_item realloc_base v p)
      /\ base (retag X v) = base v)
  /\ (forall (uint_bits : Z) (fuel : nat) (w : world)
             (a : AutoFreeSmallVector S) (d : AutoDeleteSmallVector S),
        AutoFreeSmallVector_Clear uint_bits fuel (retag_free X a) w
        = prod_map (retag_free X) id <$> AutoFreeSmallVector_Clear uint_bits fuel a w
        /\ AutoDeleteSmallVector_Clear uint_bits fuel (retag_delete X d) w
           = prod_map (retag_delete X) id
               <$> AutoDeleteSmallVector_Clear uint_bits fuel d w).
Proof.
  destruct v as [b], other as [o].
  split; [by repeat split|]. split; [by split|].
  split.
  { split; [reflexivity|]. split; [reflexivity|]. split; [reflexivity|].
    split.
    { unfold store, retag, Begin, End. cbn [base].
      by destruct (_ && _). }
    split; [reflexivity|].
    split.
    { unfold Include, retag. cbn [base].
      by destruct (negb (negb _)). }
    split; [|reflexivity].
    unfold Insert, retag, Begin, End. cbn [base].
    by destruct (_ && _). }
  intros uint_bits fuel w [[a]] [[d]]. split.
  - unfold AutoFreeSmallVector_Clear, retag_free, retag. cbn [base af_vector].
    by destruct (for_uint _ _ _ _ _ _).
  - unfold AutoDeleteSmallVector_Clear, retag_delete, retag. cbn [base ad_vector].
    by destruct (for_uint _ _ _ _ _ _).
Qed.

End StepFacts.

(** ** The owning vectors *)

Section OwningFacts.

Variable uint_bits : Z.
Variable realloc_base : Z -> nat -> nat -> Z.

Implicit Types (k : teardown) (l : list Z) (w : world) (p : Z).

Lemma teardown_eqb_refl k : teardown_eqb k k = true.
Proof. by destruct k. Qed.

Lemma teardown_call_null k w :
  teardown_call k 0 w
  = Some (World (live w) (invoked w ++ [(k, 0)]) (released w)).
Proof. reflexivity. Qed.

Lemma teardown_call_live k p w :
  p <> 0 -> live w !! p = Some k ->
  teardown_call k p w
  = Some (World (base.delete p (live w)) (invoked w ++ [(k, p)])
                (released w ++ [(k, p)])).
Proof.
  intros Hp Hl. unfold teardown_call.
  destruct (Z.eqb_spec p 0); [done|]. by rewrite Hl, teardown_eqb_refl.
Qed.

Lemma teardown_call_dead k p w :
  p <> 0 -> live w !! p = None -> teardown_call k p w = None.
Proof.
  intros Hp Hl. unfold teardown_call.
  destruct (Z.eqb_spec p 0); [done|]. by rewrite Hl.
Qed.

(** On pointers that own their blocks the teardown of all of them is
    defined, and releases each block once. *)
Lemma teardown_each_owned k l w :
  owned k l w ->
  exists w', teardown_each k l w = Some w' /\ torn_down k l w w'.
Proof.
  revert w. induction l as [|p l IH]; intros w [Hnd Hlive].
  - exists w. split; [done|]. unfold torn_down. cbn [map filter list_filter].
    rewrite !app_nil_r. split; [done|]. split; [done|].
    split; [|done]. intros p Hp. by apply elem_of_nil in Hp.
  - cbn [teardown_each]. destruct (decide (p = 0)) as [->|Hp].
    + rewrite teardown_call_null. cbn [mbind option_bind].
      rewrite filter_cons_False in Hnd by (intros H; by apply H).
      destruct (IH (World (live w) (invoked w ++ [(k, 0)]) (released w)))
        as (w' & Hrun & Hinv & Hrel & Hdead & Hframe).
      { split; [done|]. intros q Hq Hq0. cbn [live]. apply Hlive; [|done].
        by right. }
      exists w'. split; [done|]. cbn [invoked released live] in *.
      split; [by rewrite Hinv, <- app_assoc|].
      split; [by rewrite filter_cons_False by (intros H; by apply H)|].
      split.
      * intros q [->|Hq]%elem_of_cons Hq0; [done|]. by apply Hdead.
      * intros q [_ Hq]%not_elem_of_cons. by apply Hframe.
    + rewrite filter_cons_True in Hnd by done.
      apply NoDup_cons in Hnd as [Hfresh Hnd].
      rewrite (teardown_call_live k p w Hp) by (apply Hlive; [by left|done]).
      cbn [mbind option_bind].
      destruct (IH (World (base.delete p (live w)) (invoked w ++ [(k, p)])
                          (released w ++ [(k, p)])))
        as (w' & Hrun & Hinv & Hrel & Hdead & Hframe).
      { split; [done|]. intros q Hq Hq0. cbn [live].
        rewrite lookup_delete_ne.
        - apply Hlive; [by right|done].
        - intros ->. apply Hfresh. by apply list_elem_of_filter. }
      exists w'. split; [done|]. cbn [invoked released live] in *.
      split; [by rewrite Hinv, <- app_assoc|].
      split; [by rewrite filter_cons_True, Hrel, <- app_assoc by done|].
      split.
      * intros q [->|Hq]%elem_of_cons Hq0; [|by apply Hdead].
        destruct (decide (p ∈ l)) as [Hin|Hout]; [by apply Hdead|].
        rewrite Hframe by done. apply lookup_delete_eq.
      * intros q [Hqp Hq]%not_elem_of_cons. rewrite Hframe by done.
        by apply lookup_delete_ne.
Qed.

(** The loop of [Clear], started at index [i] with enough fuel, calls the
    teardown operation on the remaining slots, front to back, provided
    [uint] can count to the size. *)
Lemma for_uint_visits k (vec : @vector Z) (rest i fuel : nat) w :
  (i + rest = length (items vec))%nat ->
  size vec < 2 ^ uint_bits ->
  (rest < fuel)%nat ->
  for_uint uint_bits fuel (size vec)
           (fun i w => p ← at_index vec i; teardown_call k p w)
           (Z.of_nat i) w
  = teardown_each k (drop i (items vec)) w.
Proof.
  intros Hlen Hsz. revert i fuel w Hlen.
  induction rest as [|rest IH]; intros i fuel w Hlen Hfuel;
    (destruct fuel as [|fuel]; [lia|]); simpl.
  - destruct (Z.ltb_spec (Z.of_nat i) (size vec)) as [H|_];
      [unfold size in H; lia|].
    rewrite drop_ge by lia. reflexivity.
  - destruct (Z.ltb_spec (Z.of_nat i) (size vec)) as [_|H];
      [|unfold size in H; lia].
    rewrite at_index_of_nat.
    destruct (lookup_lt_is_Some_2 (items vec) i) as [p Hp]; [lia|].
    rewrite Hp, (drop_S _ _ _ Hp). cbn [mbind option_bind teardown_each].
    destruct (teardown_call k p w) as [w1|]; [|done].
    cbn [mbind option_bind].
    replace (to_uint uint_bits (Z.of_nat i + 1)) with (Z.of_nat (Datatypes.S i)).
    + apply IH; lia.
    + unfold to_uint, wrap_unsigned. rewrite Z.mod_small; [lia|].
      unfold size in Hsz. lia.
Qed.

Lemma AutoFree_Clear_result {S} (v : AutoFreeSmallVector S) w (fuel : nat) :
  size (base (af_vector v)) < 2 ^ uint_bits ->
  (length (items (base (af_vector v))) < fuel)%nat ->
  AutoFreeSmallVector_Clear uint_bits fuel v w
  = (w' ← teardown_each RawFree (items (base (af_vector v))) w;
     Some (AutoFree (SV (clear (base (af_vector v)))), w')).
Proof.
  intros Hsz Hfuel. unfold AutoFreeSmallVector_Clear, free.
  pose proof (for_uint_visits RawFree _ (length (items (base (af_vector v)))) 0
                              fuel w eq_refl Hsz Hfuel) as Hloop.
  change (Z.of_nat 0) with 0 in Hloop. by rewrite Hloop.
Qed.

Lemma AutoDelete_Clear_result {S} (v : AutoDeleteSmallVector S) w (fuel : nat) :
  size (base (ad_vector v)) < 2 ^ uint_bits ->
  (length (items (base (ad_vector v))) < fuel)%nat ->
  AutoDeleteSmallVector_Clear uint_bits fuel v w
  = (w' ← teardown_each FullDelete (items (base (ad_vector v))) w;
     Some (AutoDelete (SV (clear (base (ad_vector v)))), w')).
Proof.
  intros Hsz Hfuel. unfold AutoDeleteSmallVector_Clear, delete.
  pose proof (for_uint_visits FullDelete _ (length (items (base (ad_vector v)))) 0
                              fuel w eq_refl Hsz Hfuel) as Hloop.
  change (Z.of_nat 0) with 0 in Hloop. by rewrite Hloop.
Qed.

(** When the counter cannot reach the size, the loop never finishes. *)
Lemma for_uint_never_finishes (n : Z) (body : Z -> world -> option world)
      (fuel : nat) (i : Z) w :
  0 < 2 ^ uint_bits <= n ->
  0 <= i < 2 ^ uint_bits ->
  for_uint uint_bits fuel n body i w = None.
Proof.
  intros Hn. revert i w. induction fuel as [|fuel IH]; intros i w Hi; [done|].
  simpl. destruct (Z.ltb_spec i n) as [_|H]; [|lia].
  destruct (body i w) as [w'|]; [|done].
  apply IH. unfold to_uint, wrap_unsigned. apply Z.mod_pos_bound. lia.
Qed.

(** Running the loop is running its first [k] iterations, then the rest. *)
Lemma for_uint_after_then (k fuel : nat) (n : Z)
      (body : Z -> world -> option world) (i : Z) w (i' : Z) w' :
  for_uint_after uint_bits k n body i w = Some (i', w') ->
  for_uint uint_bits (k + fuel) n body i w
  = for_uint uint_bits fuel n body i' w'.
Proof.
  revert i w. induction k as [|k IH]; intros i w; simpl.
  - by intros [= -> ->].
  - destruct (i <? n); [|done]. destruct (body i w); [|done]. apply IH.
Qed.

Lemma for_uint_after_add (a b : nat) (n : Z)
      (body : Z -> world -> option world) (i : Z) w :
  for_uint_after uint_bits (a + b) n body i w
  = match for_uint_after uint_bits a n body i w with
    | Some (i', w') => for_uint_after uint_bits b n body i' w'
    | None => None
    end.
Proof.
  revert i w. induction a as [|a IH]; intros i w; simpl; [done|].
  destruct (i <? n); [|done]. destruct (body i w); [|done]. apply IH.
Qed.

Lemma for_uint_after_one (n : Z) (body : Z -> world -> option world)
      (i : Z) w :
  i < n ->
  for_uint_after uint_bits 1 n body i w
  = (w1 ← body i w; Some (to_uint uint_bits (i + 1), w1)).
Proof.
  intros Hi. simpl. destruct (Z.ltb_spec i n); [|lia].
  by destruct (body i w).
Qed.

(** Over a run of [m] null pointers starting at index [i] the loop calls
    the teardown operation [m] times and tears nothing down. *)
Lemma for_uint_after_nulls k (vec : @vector Z) (m i : nat) w :
  Z.of_nat (i + m) <= 2 ^ uint_bits ->
  Z.of_nat (i + m) <= size vec ->
  (forall j, (i <= j < i + m)%nat -> items vec !! j = Some 0) ->
  exists w',
    for_uint_after uint_bits m (size vec)
                   (fun i w => p ← at_index vec i; teardown_call k p w)
                   (to_uint uint_bits (Z.of_nat i)) w
    = Some (to_uint uint_bits (Z.of_nat (i + m)), w')
    /\ released w' = released w /\ live w' = live w.
Proof.
  revert i w. induction m as [|m IH]; intros i w Hbits Hsz Hnull.
  - exists w. rewrite Nat.add_0_r. by split.
  - assert (Hi : to_uint uint_bits (Z.of_nat i) = Z.of_nat i).
    { unfold to_uint, wrap_unsigned. apply Z.mod_small. lia. }
    destruct (IH (Datatypes.S i)
                 (World (live w) (invoked w ++ [(k, 0)]) (released w)))
      as (w' & Hrun & Hrel & Hlive);
      [lia|lia|intros j Hj; apply Hnull; lia|].
    exists w'. split; [|by split].
    cbn [for_uint_after]. rewrite Hi.
    destruct (Z.ltb_spec (Z.of_nat i) (size vec)); [|lia].
    rewrite at_index_of_nat, (Hnull i) by lia. cbn [mbind option_bind].
    rewrite teardown_call_null.
    replace (Z.of_nat i + 1) with (Z.of_nat (Datatypes.S i)) by lia.
    rewrite Hrun. do 3 f_equal. lia.
Qed.

(** When the vector holds exactly [2 ^ uint_bits] pointers, the first of
    them a live block [p] and the others null, the loop has released [p]
    and its counter is back at 0 after that many iterations; the next
    iteration calls the teardown operation on [p] again, which is
    undefined. *)
Lemma for_uint_after_wrap k (b p : Z) (m : nat) w :
  Z.of_nat m + 1 = 2 ^ uint_bits -> 1 < 2 ^ uint_bits ->
  p <> 0 -> live w !! p = Some k ->
  (exists w',
      for_uint_after uint_bits (1 + m)
                     (size (Vector b (p :: replicate m 0)))
                     (fun i w => q ← at_index (Vector b (p :: replicate m 0)) i;
                                 teardown_call k q w)
                     0 w
      = Some (0, w')
      /\ released w' = released w ++ [(k, p)])
  /\ for_uint_after uint_bits (1 + (m + 1))
                    (size (Vector b (p :: replicate m 0)))
                    (fun i w => q ← at_index (Vector b (p :: replicate m 0)) i;
                                teardown_call k q w)
                    0 w
     = None.
Proof.
  intros Hm Hone Hp Hlive.
  set (vec := Vector b (p :: replicate m 0)).
  set (body := fun (i : Z) (w : world) =>
                 q ← at_index vec i; teardown_call k q w).
  assert (Hsz : size vec = 2 ^ uint_bits).
  { unfold size. cbn [vec items length]. rewrite length_replicate. lia. }
  assert (Hone' : to_uint uint_bits (0 + 1) = to_uint uint_bits (Z.of_nat 1)).
  { reflexivity. }
  set (w1 := World (base.delete p (live w)) (invoked w ++ [(k, p)])
                   (released w ++ [(k, p)])).
  assert (Hfirst : body 0 w = Some w1).
  { unfold body. change (at_index vec 0) with (Some p).
    cbn [mbind option_bind]. by apply teardown_call_live. }
  destruct (for_uint_after_nulls k vec m 1 w1) as (w2 & Hrun & Hrel & Hlv).
  { lia. }
  { rewrite Hsz. lia. }
  { intros [|j] Hj; [lia|]. cbn [vec items]. rewrite lookup_cons.
    apply lookup_replicate_2. lia. }
  fold body in Hrun.
  assert (Hback : to_uint uint_bits (Z.of_nat (1 + m)) = 0).
  { unfold to_uint, wrap_unsigned.
    replace (Z.of_nat (1 + m)) with (2 ^ uint_bits) by lia.
    apply Z.mod_same. lia. }
  rewrite Hback in Hrun.
  assert (Hround : for_uint_after uint_bits (1 + m) (size vec) body 0 w
                   = Some (0, w2)).
  { rewrite for_uint_after_add, for_uint_after_one by (rewrite Hsz; lia).
    rewrite Hfirst. cbn [mbind option_bind]. rewrite Hone'. exact Hrun. }
  split.
  - exists w2. split; [exact Hround|]. by rewrite Hrel.
  - replace (1 + (m + 1))%nat with ((1 + m) + 1)%nat by lia.
    rewrite for_uint_after_add, Hround.
    rewrite for_uint_after_one by (rewrite Hsz; lia).
    unfold body. change (at_index vec 0) with (Some p).
    cbn [mbind option_bind].
    rewrite teardown_call_dead; [done|done|].
    rewrite Hlv. apply lookup_delete_eq.
Qed.

(** Once the blocks of the non-null pointers are live no more, the loop of
    [Clear] has no defined result on a vector that holds a non-null
    pointer. *)
Lemma for_uint_on_released k (vec : @vector Z) (fuel i j : nat) p w :
  size vec < 2 ^ uint_bits ->
  (i <= j)%nat -> items vec !! j = Some p -> p <> 0 ->
  (forall q, q ∈ items vec -> q <> 0 -> live w !! q = None) ->
  for_uint uint_bits fuel (size vec)
           (fun i w => q ← at_index vec i; teardown_call k q w)
           (Z.of_nat i) w
  = None.
Proof.
  intros Hsz Hij Hj Hp. revert i w Hij.
  assert (Hjl : (j < length (items vec))%nat) by by eapply lookup_lt_Some.
  induction fuel as [|fuel IH]; intros i w Hij Hdead; [done|].
  simpl. destruct (Z.ltb_spec (Z.of_nat i) (size vec)) as [_|H];
    [|unfold size in H; lia].
  rewrite at_index_of_nat.
  destruct (lookup_lt_is_Some_2 (items vec) i) as [q Hq]; [lia|].
  rewrite Hq. cbn [mbind option_bind].
  destruct (decide (q = 0)) as [->|Hq0].
  - rewrite teardown_call_null.
    assert (Hne : i <> j) by (intros ->; congruence).
    replace (to_uint uint_bits (Z.of_nat i + 1)) with (Z.of_nat (Datatypes.S i)).
    + apply IH; [lia|]. intros r Hr Hr0. cbn [live]. by apply Hdead.
    + unfold to_uint, wrap_unsigned. rewrite Z.mod_small; [lia|].
      unfold size in Hsz. lia.
  - rewrite teardown_call_dead; [done|done|].
    apply Hdead; [|done]. by eapply list_elem_of_lookup_2.
Qed.

End OwningFacts.

Section OwningClear.

Variable uint_bits : Z.
Variable realloc_base : Z -> nat -> nat -> Z.


End OwningClear.

(** * Concrete containers *)

Import Examples.

(** The specification's scenario on a [SmallVector<int, 8>] holding
    1, 2, 3: the search for 2, the two calls of [Include], and the
    insertion of 9 at index 1. *)
Example ints_scenario :
  FindIndex Z.eqb (ints 100 [1; 2; 3]) 2 = 1
  /\ Include Z.eqb moving_alloc (ints 100 [1; 2; 3]) 2
     = (ints 100 [1; 2; 3], true)
  /\ Include Z.eqb moving_alloc (ints 100 [1; 2; 3]) 4
     = (ints 4196 [1; 2; 3; 4], false)
  /\ InsertAt 0 moving_alloc (ints 4196 [1; 2; 3; 4]) (4196 + 1) 9
     = Some (Returns (ints 8292 [1; 9; 2; 3; 4]) (8292 + 1)).
Proof. by repeat split. Qed.

(** ** InsertAt *)


(** ** FindIndex on containers beyond the range of int *)

(** The search for [x] in a run of [n] elements that differ from it,
    followed by [x], stops at index [n]. *)
Lemma FindIndex_past_run {T : Type} (T_eq : T -> T -> bool) {S : N}
      (b : Z) (n : nat) (a x : T) :
  T_eq a x = false -> T_eq x x = true ->
  FindIndex T_eq (SV (S := S) (Vector b (replicate n a ++ [x]))) x
  = to_int (Z.of_nat n).
Proof.
  intros Ha Hx. rewrite FindIndex_unfold. cbn [base items].
  rewrite (std_find_skip T_eq n a x [x] Ha). cbn [std_find]. rewrite Hx.
  rewrite length_app, length_replicate. cbn [length].
  destruct (decide _) as [He|_]; [lia|]. f_equal. lia.
Qed.

Lemma has_equal_last (n : nat) :
  has_equal Z.eqb (replicate n 0 ++ [1]) 1.
Proof. exists 1. split; [|reflexivity]. apply elem_of_app. right. constructor. Qed.

(** C3, at the failing input.  In the container of 4294967296 elements
    whose only 1 is the last one, index 4294967295 holds a 1, yet
    [FindIndex(1)] is -1, the "not found" result. *)
Lemma FindIndex_reports_far_element_absent :
  (replicate (Z.to_nat 4294967295) 0 ++ [1]) !! Z.to_nat 4294967295 = Some 1
  /\ has_equal Z.eqb (replicate (Z.to_nat 4294967295) 0 ++ [1]) 1
  /\ FindIndex Z.eqb (ints 4096 (replicate (Z.to_nat 4294967295) 0 ++ [1])) 1
     = -1.
Proof.
  split; [|split].
  - apply list_lookup_middle. by rewrite length_replicate.
  - apply has_equal_last.
  - unfold ints. rewrite FindIndex_past_run by reflexivity.
    rewrite Z2Nat.id by lia. reflexivity.
Qed.

(** C9, at the failing input.  In the container of 2147483649 elements
    whose only 1 is the last one, some element equals 1, yet [FindIndex(1)]
    is -2147483648: a result for a present element that is negative. *)
Lemma FindIndex_negative_for_present_element :
  has_equal Z.eqb (replicate (Z.to_nat 2147483648) 0 ++ [1]) 1
  /\ FindIndex Z.eqb (ints 4096 (replicate (Z.to_nat 2147483648) 0 ++ [1])) 1
     = -2147483648
  /\ FindIndex Z.eqb (ints 4096 (replicate (Z.to_nat 2147483648) 0 ++ [1])) 1
     < 0.
Proof.
  assert (H : FindIndex Z.eqb
                (ints 4096 (replicate (Z.to_nat 2147483648) 0 ++ [1])) 1
              = -2147483648).
  { unfold ints. rewrite FindIndex_past_run by reflexivity.
    rewrite Z2Nat.id by lia. reflexivity. }
  split; [apply has_equal_last|]. split; [exact H|]. rewrite H. lia.
Qed.

(** X13 on the vector 1, 2, 3, 2 and the value 2. *)
Lemma FindIndex_lowest_index_witness :
  size (base (ints 100 [1; 2; 3; 2])) <= INT_MAX + 1
  /\ has_equal Z.eqb (items (base (ints 100 [1; 2; 3; 2]))) 2
  /\ exists i a,
       FindIndex Z.eqb (ints 100 [1; 2; 3; 2]) 2 = Z.of_nat i
       /\ i = 1%nat
       /\ items (base (ints 100 [1; 2; 3; 2])) !! i = Some a
       /\ (a =? 2) = true.
Proof.
  assert (Hsz : size (base (ints 100 [1; 2; 3; 2])) <= INT_MAX + 1)
    by (vm_compute; discriminate).
  assert (Hh : has_equal Z.eqb (items (base (ints 100 [1; 2; 3; 2]))) 2).
  { exists 2. split; [|reflexivity]. simpl. apply list_elem_of_In. simpl. tauto. }
  split; [exact Hsz|]. split; [exact Hh|].
  destruct (FindIndex_lowest_index Z.eqb (ints 100 [1; 2; 3; 2]) 2 Hsz)
    as (Hfound & _ & _).
  destruct (Hfound Hh) as (i & a & HF & Ha & He & _).
  exists i, a. split; [exact HF|]. split; [|split; [exact Ha|exact He]].
  change (FindIndex Z.eqb (ints 100 [1; 2; 3; 2]) 2) with 1 in HF. lia.
Defined.

(** X14 on the vector 1, 2, 3 and the absent value 4. *)
Lemma FindIndex_sentinel_witness :
  size (base (ints 100 [1; 2; 3])) <= INT_MAX + 1
  /\ (FindIndex Z.eqb (ints 100 [1; 2; 3]) 4 = -1
      \/ 0 <= FindIndex Z.eqb (ints 100 [1; 2; 3]) 4
         < size (base (ints 100 [1; 2; 3])))
  /\ (0 <= FindIndex Z.eqb (ints 100 [1; 2; 3]) 4
      <-> has_equal Z.eqb (items (base (ints 100 [1; 2; 3]))) 4).
Proof.
  assert (Hsz : size (base (ints 100 [1; 2; 3])) <= INT_MAX + 1)
    by (vm_compute; discriminate).
  split; [exact Hsz|].
  destruct (FindIndex_sentinel Z.eqb (ints 100 [1; 2; 3]) 4 Hsz)
    as (Hrange & _ & Hiff).
  split; [exact Hrange|exact Hiff].
Defined.

(** ** grow and the range of size_t *)

(** C6, counterexample.  On the buffer holding the single element 7, with
    the count [SIZE_MAX], [pos + num] wraps to 0: [grow] returns, having
    emptied the buffer instead of extending it, and the returned address,
    index 1, is past the end of the result. *)
Lemma grow_wraps_around :
  0 <= SIZE_MAX < 2 ^ size_t_bits
  /\ grow 0 moving_alloc int_max_size (Vector 100 [7]) SIZE_MAX
     = Done (Vector 100 []) (100 + 1)
  /\ size (Vector 100 (@nil Z)) <> size (Vector 100 [7]) + SIZE_MAX
  /\ at_index (Vector 100 (@nil Z)) 1 = None.
Proof.
  split; [unfold SIZE_MAX, size_t_bits; lia|].
  split; [reflexivity|]. split; [by vm_compute|reflexivity].
Qed.

(** C6 on the buffer 7, 8 and the count 3. *)
Lemma grow_extends_witness :
  0 <= 3
  /\ size (Vector 100 [7; 8]) + 3 <= int_max_size
  /\ int_max_size <= SIZE_MAX
  /\ exists vec' p,
       grow 0 moving_alloc int_max_size (Vector 100 [7; 8]) 3 = Done vec' p
       /\ items vec' = [7; 8; 0; 0; 0]
       /\ size vec' = 5
       /\ p = data vec' + 2
       /\ at_index vec' (p - data vec') = Some 0.
Proof.
  assert (H0 : 0 <= 3) by lia.
  assert (H1 : size (Vector 100 [7; 8]) + 3 <= int_max_size)
    by (vm_compute; discriminate).
  assert (H2 : int_max_size <= SIZE_MAX) by (vm_compute; discriminate).
  split; [exact H0|]. split; [exact H1|]. split; [exact H2|].
  destruct (grow_extends 0 moving_alloc int_max_size (Vector 100 [7; 8]) 3
                         H0 H1 H2)
    as (vec' & p & Hg & Hit & Hsz & Hp & _ & Hnew).
  exists vec', p. split; [exact Hg|]. split; [exact Hit|].
  split; [exact Hsz|]. split; [exact Hp|].
  specialize (Hnew 0%nat). rewrite Z.add_0_r in Hnew. apply Hnew.
  simpl. lia.
Defined.

(** ** Clear and the range of uint *)

Lemma live_heap_of_head (k : teardown) (p : Z) (ps : list Z) :
  live (heap_of k (p :: ps)) !! p = Some k.
Proof. unfold heap_of. cbn [live fmap list_fmap list_to_map foldr]. apply lookup_insert_eq. Qed.

(** An owning vector of [m + 1] pointers, the first one the live block 7000
    and the others null, when [m + 1] is one more than a 32-bit [uint] can
    hold. *)
Lemma Clear_with_32_bit_counter (m : nat) :
  Z.of_nat m + 1 = 2 ^ 32 ->
  size (Vector 4096 (7000 :: replicate m 0)) = 4294967296
  /\ owned RawFree (7000 :: replicate m 0) (heap_of RawFree [7000])
  /\ owned FullDelete (7000 :: replicate m 0) (heap_of FullDelete [7000])
  /\ (forall (fuel : nat) (w : world),
        AutoFreeSmallVector_Clear 32 fuel
          (strings 4096 (7000 :: replicate m 0)) w = None
        /\ AutoFreeSmallVector_destroy 32 fuel
             (strings 4096 (7000 :: replicate m 0)) w = None
        /\ AutoDeleteSmallVector_Clear 32 fuel
             (objects 4096 (7000 :: replicate m 0)) w = None
        /\ AutoDeleteSmallVector_destroy 32 fuel
             (objects 4096 (7000 :: replicate m 0)) w = None)
  /\ ((exists w',
         AutoFreeSmallVector_Clear_after 32 (1 + m)
           (strings 4096 (7000 :: replicate m 0)) (heap_of RawFree [7000])
         = Some (0, w')
         /\ released w' = [(RawFree, 7000)])
      /\ AutoFreeSmallVector_Clear_after 32 (1 + (m + 1))
           (strings 4096 (7000 :: replicate m 0)) (heap_of RawFree [7000])
         = None)
  /\ ((exists w',
         AutoDeleteSmallVector_Clear_after 32 (1 + m)
           (objects 4096 (7000 :: replicate m 0)) (heap_of FullDelete [7000])
         = Some (0, w')
         /\ released w' = [(FullDelete, 7000)])
      /\ AutoDeleteSmallVector_Clear_after 32 (1 + (m + 1))
           (objects 4096 (7000 :: replicate m 0)) (heap_of FullDelete [7000])
         = None).
Proof.
  intros Hm.
  assert (Hsz : size (Vector 4096 (7000 :: replicate m 0)) = 4294967296).
  { unfold size. cbn [items length]. rewrite length_replicate. lia. }
  assert (Hown : forall k, owned k (7000 :: replicate m 0) (heap_of k [7000])).
  { intros k. split.
    - rewrite filter_cons_True by done.
      replace (filter (fun p => p <> 0) (replicate m 0)) with (@nil Z).
      + apply NoDup_singleton.
      + symmetry. clear Hm Hsz. induction m as [|n IH]; [done|].
        cbn [replicate]. by rewrite filter_cons_False by (intros H; by apply H).
    - intros p [->|Hp]%elem_of_cons Hp0; [apply live_heap_of_head|].
      by apply elem_of_replicate in Hp as [-> _]. }
  split; [exact Hsz|]. split; [apply Hown|]. split; [apply Hown|]. split.
  - intros fuel w.
    assert (HF : AutoFreeSmallVector_Clear 32 fuel
                   (strings 4096 (7000 :: replicate m 0)) w = None).
    { unfold AutoFreeSmallVector_Clear, strings. cbn [af_vector base].
      rewrite for_uint_never_finishes; [reflexivity| |lia].
      rewrite Hsz. lia. }
    assert (HD : AutoDeleteSmallVector_Clear 32 fuel
                   (objects 4096 (7000 :: replicate m 0)) w = None).
    { unfold AutoDeleteSmallVector_Clear, objects. cbn [ad_vector base].
      rewrite for_uint_never_finishes; [reflexivity| |lia].
      rewrite Hsz. lia. }
    split; [exact HF|]. split.
    { unfold AutoFreeSmallVector_destroy. by rewrite HF. }
    split; [exact HD|].
    unfold AutoDeleteSmallVector_destroy. by rewrite HD.
  - split.
    + destruct (for_uint_after_wrap 32 RawFree 4096 7000 m
                  (heap_of RawFree [7000]) Hm)
        as ((w' & Hrun & Hrel) & Hnext); [lia|done|apply live_heap_of_head|].
      split; [|exact Hnext]. exists w'. split; [exact Hrun|exact Hrel].
    + destruct (for_uint_after_wrap 32 FullDelete 4096 7000 m
                  (heap_of FullDelete [7000]) Hm)
        as ((w' & Hrun & Hrel) & Hnext); [lia|done|apply live_heap_of_head|].
      split; [|exact Hnext]. exists w'. split; [exact Hrun|exact Hrel].
Qed.

(** C4, at the failing input.  With a 32-bit [uint], take an owning vector
    of 4294967296 pointers, the first one the live block 7000, which the
    vector owns, and the others null.  The counter of [Clear()] wraps to 0
    before it reaches the size: whatever the fuel, neither [Clear()] nor the
    destructor returns, for either variant; after 4294967296 iterations the
    loop has released the block 7000 and its counter is 0 again, and the
    next iteration calls the teardown operation on 7000 a second time, which
    is undefined. *)
Lemma Clear_never_returns_beyond_uint :
  size (Vector 4096 (7000 :: replicate (Z.to_nat 4294967295) 0)) = 4294967296
  /\ owned RawFree (7000 :: replicate (Z.to_nat 4294967295) 0)
           (heap_of RawFree [7000])
  /\ owned FullDelete (7000 :: replicate (Z.to_nat 4294967295) 0)
           (heap_of FullDelete [7000])
  /\ (forall (fuel : nat) (w : world),
        AutoFreeSmallVector_Clear 32 fuel
          (strings 4096 (7000 :: replicate (Z.to_nat 4294967295) 0)) w = None
        /\ AutoFreeSmallVector_destroy 32 fuel
             (strings 4096 (7000 :: replicate (Z.to_nat 4294967295) 0)) w = None
        /\ AutoDeleteSmallVector_Clear 32 fuel
             (objects 4096 (7000 :: replicate (Z.to_nat 4294967295) 0)) w = None
        /\ AutoDeleteSmallVector_destroy 32 fuel
             (objects 4096 (7000 :: replicate (Z.to_nat 4294967295) 0)) w = None)
  /\ ((exists w',
         AutoFreeSmallVector_Clear_after 32 (1 + Z.to_nat 4294967295)
           (strings 4096 (7000 :: replicate (Z.to_nat 4294967295) 0))
           (heap_of RawFree [7000])
         = Some (0, w')
         /\ released w' = [(RawFree, 7000)])
      /\ AutoFreeSmallVector_Clear_after 32 (1 + (Z.to_nat 4294967295 + 1))
           (strings 4096 (7000 :: replicate (Z.to_nat 4294967295) 0))
           (heap_of RawFree [7000])
         = None)
  /\ ((exists w',
         AutoDeleteSmallVector_Clear_after 32 (1 + Z.to_nat 4294967295)
           (objects 4096 (7000 :: replicate (Z.to_nat 4294967295) 0))
           (heap_of FullDelete [7000])
         = Some (0, w')
         /\ released w' = [(FullDelete, 7000)])
      /\ AutoDeleteSmallVector_Clear_after 32 (1 + (Z.to_nat 4294967295 + 1))
           (objects 4096 (7000 :: replicate (Z.to_nat 4294967295) 0))
           (heap_of FullDelete [7000])
         = None).
Proof.
  assert (Hm : Z.of_nat (Z.to_nat 4294967295) + 1 = 2 ^ 32)
    by (rewrite Z2Nat.id; lia).
  exact (Clear_with_32_bit_counter (Z.to_nat 4294967295) Hm).
Qed.

Lemma strings_owned :
  owned RawFree [7000; 0; 9000] (heap_of RawFree [7000; 9000; 5000]).
Proof.
  split.
  - change (NoDup [7000; 9000]). apply NoDup_cons.
    split; [|apply NoDup_singleton].
    intros [H|H]%elem_of_cons; [done|]. by apply elem_of_nil in H.
  - intros p Hp Hp0.
    repeat (apply elem_of_cons in Hp as [->|Hp]); try done.
    by apply elem_of_nil in Hp.
Qed.


(** * Further properties of the operations *)

(** ** Include and FindIndex together *)

Section IncludeFacts.

Context {T : Type}.
Variable T_eq : T -> T -> bool.
Variable realloc_base : Z -> nat -> nat -> Z.

Implicit Types (l : list T) (x a b : T).

Lemma Include_absent {S} (v : @SmallVector T S) x :
  none_equal T_eq (items (base v)) x ->
  Include T_eq realloc_base v x
  = (SV (emplace_back realloc_base (base v) x), false).
Proof.
  intros Hn. apply std_find_end in Hn. unfold Include. rewrite Hn.
  by rewrite Nat.eqb_refl.
Qed.

Lemma Include_present {S} (v : @SmallVector T S) x :
  has_equal T_eq (items (base v)) x ->
  Include T_eq realloc_base v x = (v, true).
Proof.
  intros Hh. apply std_find_found in Hh. unfold Include.
  destruct (Nat.eqb_spec (std_find T_eq (items (base v)) x)
                         (length (items (base v)))); [lia|done].
Qed.

Lemma has_or_none l x : has_equal T_eq l x \/ none_equal T_eq l x.
Proof.
  destruct (decide (std_find T_eq l x = length l)) as [He|Hne].
  - right. by apply std_find_end.
  - left. apply std_find_found. pose proof (std_find_le T_eq l x). lia.
Qed.

Lemma has_equal_app_l l k x : has_equal T_eq l x -> has_equal T_eq (l ++ k) x.
Proof. intros (a & Ha & He). exists a. split; [|done]. apply elem_of_app. by left. Qed.

Lemma has_equal_snoc l x : T_eq x x = true -> has_equal T_eq (l ++ [x]) x.
Proof.
  intros Hx. exists x. split; [|done]. apply elem_of_app. right. constructor.
Qed.

(** The search in [l ++ [x]] when nothing in [l] compares equal to [x]. *)
Lemma std_find_snoc l x :
  none_equal T_eq l x -> T_eq x x = true ->
  std_find T_eq (l ++ [x]) x = length l.
Proof.
  intros Hn Hx. induction l as [|a l IH]; simpl.
  - by rewrite Hx.
  - rewrite (Hn a) by constructor. f_equal. apply IH.
    intros b Hb. apply Hn. by constructor.
Qed.

(** X1. [Include] is idempotent for a value that compares equal to
    itself: right after [Include(x)], a second [Include(x)] returns true and
    leaves the container, buffer address included, as the first call left
    it. *)
Theorem Include_twice {S} (v : @SmallVector T S) (x : T) :
  T_eq x x = true ->
  Include T_eq realloc_base (Include T_eq realloc_base v x).1 x
  = ((Include T_eq realloc_base v x).1, true).
Proof.
  intros Hx. destruct (has_or_none (items (base v)) x) as [Hh|Hn].
  - rewrite (Include_present v x Hh). cbn [fst]. by apply Include_present.
  - rewrite (Include_absent v x Hn). cbn [fst]. apply Include_present.
    cbn [base emplace_back items]. by apply has_equal_snoc.
Qed.

(** X2. After [Include(x)], for a value that compares equal to itself and
    a container of at most [INT_MAX] elements, [FindIndex(x)] finds [x]: at
    the index it had when it was a member already, and otherwise at the old
    size, which is where the call appended it. *)
Theorem FindIndex_after_Include {S} (v : @SmallVector T S) (x : T) :
  T_eq x x = true ->
  size (base v) <= INT_MAX ->
  FindIndex T_eq (Include T_eq realloc_base v x).1 x
  = (if (Include T_eq realloc_base v x).2
     then FindIndex T_eq v x else size (base v))
  /\ 0 <= FindIndex T_eq (Include T_eq realloc_base v x).1 x
       < size (base (Include T_eq realloc_base v x).1).
Proof.
  intros Hx Hsz. destruct (has_or_none (items (base v)) x) as [Hh|Hn].
  - rewrite (Include_present v x Hh). cbn [fst snd]. split; [done|].
    destruct (FindIndex_present T_eq v x) as [-> Hlt]; [lia|done|].
    unfold size. lia.
  - rewrite (Include_absent v x Hn). cbn [fst snd].
    rewrite FindIndex_unfold. cbn [base emplace_back items].
    rewrite (std_find_snoc _ _ Hn Hx), length_app. cbn [length].
    destruct (decide _) as [He|_]; [lia|].
    rewrite to_int_exact by (unfold size in Hsz; lia).
    unfold size. cbn [emplace_back items]. rewrite length_app. cbn [length]. lia.
Qed.

(** X3. [Include] and [FindIndex] agree on membership: on a container of
    at most [INT_MAX + 1] elements, [Include(x)] returns true exactly when
    [FindIndex(x)] is not negative. *)
Theorem Include_agrees_with_FindIndex {S} (v : @SmallVector T S) (x : T) :
  size (base v) <= INT_MAX + 1 ->
  ((Include T_eq realloc_base v x).2 = true <-> 0 <= FindIndex T_eq v x).
Proof.
  intros Hsz. destruct (has_or_none (items (base v)) x) as [Hh|Hn].
  - rewrite (Include_present v x Hh). cbn [snd].
    destruct (FindIndex_present T_eq v x Hsz Hh) as [-> _]. split; [lia|done].
  - rewrite (Include_absent v x Hn), (FindIndex_absent T_eq v x Hn). cbn [snd].
    split; [done|lia].
Qed.

End IncludeFacts.

(** ** A container filled through Include *)

Section IncludeAllFacts.

Context {T : Type}.
Variable T_eq : T -> T -> bool.
Variable realloc_base : Z -> nat -> nat -> Z.

Implicit Types (l : list T) (x a b : T).

Lemma distinct_under_nil : distinct_under T_eq (@nil T).
Proof. intros i j a b _ Hi. by rewrite lookup_nil in Hi. Qed.

Lemma distinct_under_snoc l x :
  distinct_under T_eq l -> none_equal T_eq l x ->
  distinct_under T_eq (l ++ [x]).
Proof.
  intros Hd Hn i j a b Hij Hi Hj.
  assert (Hjl : (j < length (l ++ [x]))%nat) by by eapply lookup_lt_Some.
  rewrite length_app in Hjl. cbn [length] in Hjl.
  rewrite lookup_app_l in Hi by lia.
  destruct (decide (j < length l)%nat) as [Hlt|Hge].
  - rewrite lookup_app_l in Hj by done. by apply (Hd i j).
  - rewrite lookup_app_r in Hj by lia.
    replace (j - length l)%nat with 0%nat in Hj by lia.
    injection Hj as <-. apply Hn. by eapply list_elem_of_lookup_2.
Qed.

Lemma Include_keeps_distinct {S} (v : @SmallVector T S) x :
  distinct_under T_eq (items (base v)) ->
  distinct_under T_eq (items (base (Include T_eq realloc_base v x).1)).
Proof.
  intros Hd. destruct (has_or_none T_eq (items (base v)) x) as [Hh|Hn].
  - by rewrite (Include_present T_eq realloc_base v x Hh).
  - rewrite (Include_absent T_eq realloc_base v x Hn).
    cbn [fst base emplace_back items]. by apply distinct_under_snoc.
Qed.

Lemma Include_keeps_members {S} (v : @SmallVector T S) x y :
  has_equal T_eq (items (base v)) y ->
  has_equal T_eq (items (base (Include T_eq realloc_base v x).1)) y.
Proof.
  intros Hy. destruct (has_or_none T_eq (items (base v)) x) as [Hh|Hn].
  - by rewrite (Include_present T_eq realloc_base v x Hh).
  - rewrite (Include_absent T_eq realloc_base v x Hn).
    cbn [fst base emplace_back items]. by apply has_equal_app_l.
Qed.

Lemma Include_all_keeps_members {S} (v : @SmallVector T S) (xs : list T) y :
  has_equal T_eq (items (base v)) y ->
  has_equal T_eq (items (base (Include_all T_eq realloc_base v xs))) y.
Proof.
  revert v. induction xs as [|x xs IH]; intros v Hy; [done|].
  cbn [Include_all fold_left]. apply IH. by apply Include_keeps_members.
Qed.

(** X4. A container filled through [Include] holds no duplicates: if no
    element compares equal to a later one, this is still so after any
    sequence of [Include] calls; in particular it is so for a container
    built from the empty one by [Include] calls alone, whatever the values
    and whatever [operator==] is. *)
Theorem Include_all_keeps_distinct {S} (v : @SmallVector T S) (xs : list T) :
  (distinct_under T_eq (items (base v)) ->
   distinct_under T_eq (items (base (Include_all T_eq realloc_base v xs))))
  /\ distinct_under T_eq
       (items (base (Include_all T_eq realloc_base (SmallVector_new S) xs))).
Proof.
  assert (Hgen : forall (u : @SmallVector T S),
             distinct_under T_eq (items (base u)) ->
             distinct_under T_eq
               (items (base (Include_all T_eq realloc_base u xs)))).
  { induction xs as [|x xs IH]; intros u Hd; [done|].
    cbn [Include_all fold_left]. apply IH. by apply Include_keeps_distinct. }
  split; [apply Hgen|]. apply Hgen. apply distinct_under_nil.
Qed.

(** X5. A sequence of [Include] calls only appends: the elements the
    container held stay where they were, in their order, and what follows
    them are values taken from the arguments of the calls, in the order of
    the calls and at most one per call. *)
Theorem Include_all_only_appends {S} (v : @SmallVector T S) (xs : list T) :
  exists added : list T,
    items (base (Include_all T_eq realloc_base v xs)) = items (base v) ++ added
    /\ added `sublist_of` xs
    /\ size (base v) <= size (base (Include_all T_eq realloc_base v xs))
       <= size (base v) + Z.of_nat (length xs).
Proof.
  revert v. induction xs as [|x xs IH]; intros v.
  - exists []. cbn [Include_all fold_left]. rewrite app_nil_r.
    split; [done|]. split; [done|]. cbn [length]. lia.
  - cbn [Include_all fold_left].
    destruct (IH (Include T_eq realloc_base v x).1) as (added & Hit & Hsub & Hsz).
    fold (Include_all T_eq realloc_base (Include T_eq realloc_base v x).1 xs)
      in Hit, Hsz |- *.
    destruct (has_or_none T_eq (items (base v)) x) as [Hh|Hn].
    + rewrite (Include_present T_eq realloc_base v x Hh) in Hit, Hsz |- *.
      cbn [fst] in *. exists added. split; [done|].
      split; [by apply sublist_cons|]. cbn [length]. lia.
    + rewrite (Include_absent T_eq realloc_base v x Hn) in Hit, Hsz |- *.
      cbn [fst base emplace_back items] in *. exists (x :: added).
      split; [by rewrite Hit, <- app_assoc|].
      split; [by apply sublist_skip|].
      unfold size in *. cbn [emplace_back items] in Hsz.
      rewrite length_app in Hsz. cbn [length] in *. lia.
Qed.

(** X6. After a sequence of [Include] calls whose arguments compare equal
    to themselves, every argument is a member of the container, and so is
    everything that was a member before. *)
Theorem Include_all_includes {S} (v : @SmallVector T S) (xs : list T) :
  (forall x, x ∈ xs -> T_eq x x = true) ->
  (forall x, x ∈ xs ->
     has_equal T_eq (items (base (Include_all T_eq realloc_base v xs))) x)
  /\ (forall y, has_equal T_eq (items (base v)) y ->
        has_equal T_eq (items (base (Include_all T_eq realloc_base v xs))) y).
Proof.
  intros Hrefl. split; [|intros y; apply Include_all_keeps_members].
  revert v. induction xs as [|x xs IH]; intros v y Hy.
  - by apply elem_of_nil in Hy.
  - cbn [Include_all fold_left].
    fold (Include_all T_eq realloc_base (Include T_eq realloc_base v x).1 xs).
    apply elem_of_cons in Hy as [->|Hy].
    + apply Include_all_keeps_members.
      destruct (has_or_none T_eq (items (base v)) x) as [Hh|Hn].
      * by rewrite (Include_present T_eq realloc_base v x Hh).
      * rewrite (Include_absent T_eq realloc_base v x Hn).
        cbn [fst base emplace_back items]. apply has_equal_snoc.
        apply Hrefl. by left.
    + apply IH; [|done]. intros z Hz. apply Hrefl. by right.
Qed.

End IncludeAllFacts.

(** ** The search in two lists put together *)

Section SearchAppFacts.

Context {T : Type}.
Variable T_eq : T -> T -> bool.

Implicit Types (l : list T) (x a d : T) (i : nat).

Lemma std_find_app l1 l2 x :
  std_find T_eq (l1 ++ l2) x
  = if decide (std_find T_eq l1 x < length l1)%nat
    then std_find T_eq l1 x
    else (length l1 + std_find T_eq l2 x)%nat.
Proof.
  induction l1 as [|a l1 IH]; cbn [app std_find length].
  - destruct (decide _); [lia|done].
  - destruct (T_eq a x).
    + clear IH. destruct (decide _); [done|lia].
    + rewrite IH. repeat destruct (decide _); lia.
Qed.

End SearchAppFacts.

(** ** grow, called twice *)

Section GrowTwiceFacts.

Context {T : Type}.
Variable T_default : T.
Variable realloc_base : Z -> nat -> nat -> Z.
Variable max_size : Z.

(** X8. Two calls of [grow] compose: when [n + a + b] is within
    [max_size()], growing a buffer of size [n] by [a] and then by [b] makes
    both calls return, with the element sequence that growing it by [a + b]
    gives, and the second call returns the address [a] elements after the
    index the first call returned; growing by 0 changes no element and
    returns the end address. *)
Theorem grow_twice (vec : @vector T) (a b : Z) :
  0 <= a -> 0 <= b -> size vec + a + b <= max_size -> max_size <= SIZE_MAX ->
  exists (va vb vab v0 : @vector T) (pa pb pab p0 : Z),
    grow T_default realloc_base max_size vec a = Done va pa
    /\ grow T_default realloc_base max_size va b = Done vb pb
    /\ grow T_default realloc_base max_size vec (a + b) = Done vab pab
    /\ grow T_default realloc_base max_size vec 0 = Done v0 p0
    /\ items vb = items vab
    /\ pb - data vb = pa - data va + a
    /\ items v0 = items vec
    /\ p0 = data v0 + size vec.
Proof.
  intros Ha Hb Hfit Hmax.
  rewrite (grow_result T_default realloc_base max_size vec a) by lia.
  eexists _, _, _, _, _, _, _, _. split; [reflexivity|].
  match goal with |- grow _ _ _ ?va _ = _ /\ _ =>
    assert (Hsa : size va = size vec + a)
      by (unfold size; cbn [items];
          rewrite length_app, length_replicate; lia) end.
  rewrite (grow_result T_default realloc_base max_size _ b) by lia.
  split; [reflexivity|].
  rewrite (grow_result T_default realloc_base max_size vec (a + b)) by lia.
  split; [reflexivity|].
  rewrite (grow_result T_default realloc_base max_size vec 0) by lia.
  split; [reflexivity|]. cbn [items data].
  split; [|split; [|split]].
  - rewrite <- app_assoc. f_equal.
    rewrite Z2Nat.inj_add by lia. by rewrite replicate_add.
  - rewrite Hsa. lia.
  - cbn [Z.to_nat replicate]. by rewrite app_nil_r.
  - reflexivity.
Qed.

End GrowTwiceFacts.

(** ** The owning vectors: repeated teardown and copies *)

Section OwningMore.

Variable uint_bits : Z.
Variable realloc_base : Z -> nat -> nat -> Z.

(** X9. [Clear()] followed by the destructor, or by another [Clear()],
    tears nothing down a second time.  When the size is within the range of
    [uint] and the vector owns its pointers, the first [Clear()] returns;
    and whenever it returns, it leaves the emptied vector, on which both a
    further [Clear()] and the destructor return at once with no call of
    [free] or [delete], for either variant. *)
Theorem Clear_then_destroy_is_quiet
        (S : N) (vec : @vector Z) (w : world) (fuel fuel' : nat) :
  size vec < 2 ^ uint_bits ->
  (length (items vec) < fuel)%nat ->
  (0 < fuel')%nat ->
  ((owned RawFree (items vec) w ->
    exists w',
      AutoFreeSmallVector_Clear uint_bits fuel (AutoFree (SV (S := S) vec)) w
      = Some (AutoFree (SV (clear vec)), w'))
   /\ forall u w',
        AutoFreeSmallVector_Clear uint_bits fuel (AutoFree (SV (S := S) vec)) w
        = Some (u, w') ->
        u = AutoFree (SV (clear vec))
        /\ AutoFreeSmallVector_Clear uint_bits fuel' u w' = Some (u, w')
        /\ AutoFreeSmallVector_destroy uint_bits fuel' u w' = Some w')
  /\ ((owned FullDelete (items vec) w ->
       exists w',
         AutoDeleteSmallVector_Clear uint_bits fuel
           (AutoDelete (SV (S := S) vec)) w
         = Some (AutoDelete (SV (clear vec)), w'))
      /\ forall u w',
           AutoDeleteSmallVector_Clear uint_bits fuel
             (AutoDelete (SV (S := S) vec)) w
           = Some (u, w') ->
           u = AutoDelete (SV (clear vec))
           /\ AutoDeleteSmallVector_Clear uint_bits fuel' u w' = Some (u, w')
           /\ AutoDeleteSmallVector_destroy uint_bits fuel' u w' = Some w').
Proof.
  intros Hsz Hfuel Hfuel'.
  destruct fuel' as [|fuel']; [lia|].
  split; split.
  - intros Hown.
    destruct (teardown_each_owned RawFree _ _ Hown) as (w' & Hrun & _).
    exists w'. rewrite (AutoFree_Clear_result uint_bits) by done.
    cbn [af_vector base]. by rewrite Hrun.
  - intros u w'. unfold AutoFreeSmallVector_Clear at 1. cbn [af_vector base].
    destruct (for_uint _ _ _ _ _ _) as [w1|]; [|done].
    cbn [mbind option_bind]. intros [= <- <-]. by repeat split.
  - intros Hown.
    destruct (teardown_each_owned FullDelete _ _ Hown) as (w' & Hrun & _).
    exists w'. rewrite (AutoDelete_Clear_result uint_bits) by done.
    cbn [ad_vector base]. by rewrite Hrun.
  - intros u w'. unfold AutoDeleteSmallVector_Clear at 1. cbn [ad_vector base].
    destruct (for_uint _ _ _ _ _ _) as [w1|]; [|done].
    cbn [mbind option_bind]. intros [= <- <-]. by repeat split.
Qed.

(** X10. Copies of an owning vector are shallow: the copy holds the
    pointers of the original.  So when the vector owns its pointers, holds
    a non-null one, and its size is within the range of [uint], [Clear()]
    on the original returns, and [Clear()] on the copy after it has no
    defined result, whatever the fuel: it calls the teardown operation on a
    block that is live no more.  This holds for either variant. *)
Theorem Clear_of_copy_is_undefined
        (S : N) (vec : @vector Z) (w : world) (fuel j : nat) (p : Z) :
  size vec < 2 ^ uint_bits ->
  (length (items vec) < fuel)%nat ->
  items vec !! j = Some p -> p <> 0 ->
  (owned RawFree (items vec) w ->
   items (base (af_vector (AutoFreeSmallVector_copy realloc_base
                             (AutoFree (SV (S := S) vec))))) = items vec
   /\ exists u w1,
        AutoFreeSmallVector_Clear uint_bits fuel (AutoFree (SV (S := S) vec)) w
        = Some (u, w1)
        /\ forall fuel' : nat,
             AutoFreeSmallVector_Clear uint_bits fuel'
               (AutoFreeSmallVector_copy realloc_base
                  (AutoFree (SV (S := S) vec))) w1
             = None)
  /\ (owned FullDelete (items vec) w ->
      items (base (ad_vector (AutoDeleteSmallVector_copy realloc_base
                                (AutoDelete (SV (S := S) vec))))) = items vec
      /\ exists u w1,
           AutoDeleteSmallVector_Clear uint_bits fuel
             (AutoDelete (SV (S := S) vec)) w
           = Some (u, w1)
           /\ forall fuel' : nat,
                AutoDeleteSmallVector_Clear uint_bits fuel'
                  (AutoDeleteSmallVector_copy realloc_base
                     (AutoDelete (SV (S := S) vec))) w1
                = None).
Proof.
  intros Hsz Hfuel Hj Hp. split.
  - intros Hown. split; [reflexivity|].
    destruct (teardown_each_owned RawFree _ _ Hown)
      as (w1 & Hrun & _ & _ & Hdead & _).
    eexists _, w1. split.
    { rewrite (AutoFree_Clear_result uint_bits) by done.
      cbn [af_vector base]. by rewrite Hrun. }
    intros fuel'. unfold AutoFreeSmallVector_Clear, free.
    cbn [AutoFreeSmallVector_copy SmallVector_copy af_vector base].
    pose proof (for_uint_on_released uint_bits RawFree
                  (copy_construct realloc_base vec) fuel' 0 j p w1
                  Hsz (Nat.le_0_l j) Hj Hp Hdead) as Hloop.
    change (Z.of_nat 0) with 0 in Hloop. by rewrite Hloop.
  - intros Hown. split; [reflexivity|].
    destruct (teardown_each_owned FullDelete _ _ Hown)
      as (w1 & Hrun & _ & _ & Hdead & _).
    eexists _, w1. split.
    { rewrite (AutoDelete_Clear_result uint_bits) by done.
      cbn [ad_vector base]. by rewrite Hrun. }
    intros fuel'. unfold AutoDeleteSmallVector_Clear, delete.
    cbn [AutoDeleteSmallVector_copy SmallVector_copy ad_vector base].
    pose proof (for_uint_on_released uint_bits FullDelete
                  (copy_construct realloc_base vec) fuel' 0 j p w1
                  Hsz (Nat.le_0_l j) Hj Hp Hdead) as Hloop.
    change (Z.of_nat 0) with 0 in Hloop. by rewrite Hloop.
Qed.

End OwningMore.

(** ** Indices of members under further Include calls *)

Section StableIndexFacts.

Context {T : Type}.
Variable T_eq : T -> T -> bool.
Variable realloc_base : Z -> nat -> nat -> Z.

Lemma Include_all_extends {S} (v : @SmallVector T S) (xs : list T) :
  exists added : list T,
    items (base (Include_all T_eq realloc_base v xs)) = items (base v) ++ added.
Proof.
  revert v. induction xs as [|x xs IH]; intros v.
  - exists []. cbn [Include_all fold_left]. by rewrite app_nil_r.
  - cbn [Include_all fold_left].
    destruct (IH (Include T_eq realloc_base v x).1) as (added & Hit).
    fold (Include_all T_eq realloc_base (Include T_eq realloc_base v x).1 xs)
      in Hit |- *.
    destruct (has_or_none T_eq (items (base v)) x) as [Hh|Hn].
    + rewrite (Include_present T_eq realloc_base v x Hh) in Hit |- *.
      by exists added.
    + rewrite (Include_absent T_eq realloc_base v x Hn) in Hit |- *.
      cbn [fst base emplace_back items] in Hit |- *. exists (x :: added).
      by rewrite Hit, <- app_assoc.
Qed.

(** X11. The index of a member is stable: if some element compares equal
    to [x], then after any sequence of [Include] calls [FindIndex(x)]
    returns what it returned before them, whatever the size of the
    container. *)
Theorem FindIndex_stable_under_Include {S} (v : @SmallVector T S)
        (xs : list T) (x : T) :
  has_equal T_eq (items (base v)) x ->
  FindIndex T_eq (Include_all T_eq realloc_base v xs) x = FindIndex T_eq v x.
Proof.
  intros Hh. apply std_find_found in Hh.
  destruct (Include_all_extends v xs) as (added & Hit).
  rewrite !FindIndex_unfold, Hit, std_find_app, length_app.
  destruct (decide (std_find T_eq (items (base v)) x
                    < length (items (base v)))%nat); [|lia].
  repeat destruct (decide _); lia.
Qed.

End StableIndexFacts.

(** ** The further properties on concrete containers *)

(** X1 on 1, 3 and the value 2. *)
Lemma Include_twice_witness :
  (2 =? 2) = true
  /\ Include Z.eqb moving_alloc
       (Include Z.eqb moving_alloc (ints 100 [1; 3]) 2).1 2
     = ((Include Z.eqb moving_alloc (ints 100 [1; 3]) 2).1, true).
Proof.
  assert (H : (2 =? 2) = true) by reflexivity.
  split; [exact H|].
  exact (Include_twice Z.eqb moving_alloc (ints 100 [1; 3]) 2 H).
Defined.

(** X2 on 1, 2, 3 and the absent value 4. *)
Lemma FindIndex_after_Include_witness :
  (4 =? 4) = true
  /\ size (base (ints 100 [1; 2; 3])) <= INT_MAX
  /\ FindIndex Z.eqb (Include Z.eqb moving_alloc (ints 100 [1; 2; 3]) 4).1 4
     = 3.
Proof.
  assert (H : (4 =? 4) = true) by reflexivity.
  assert (Hsz : size (base (ints 100 [1; 2; 3])) <= INT_MAX)
    by (vm_compute; discriminate).
  split; [exact H|]. split; [exact Hsz|].
  destruct (FindIndex_after_Include Z.eqb moving_alloc (ints 100 [1; 2; 3]) 4
                                    H Hsz) as [HF _].
  rewrite HF. reflexivity.
Defined.

(** X3 on 1, 2, 3 and the member 2. *)
Lemma Include_agrees_with_FindIndex_witness :
  size (base (ints 100 [1; 2; 3])) <= INT_MAX + 1
  /\ ((Include Z.eqb moving_alloc (ints 100 [1; 2; 3]) 2).2 = true
      <-> 0 <= FindIndex Z.eqb (ints 100 [1; 2; 3]) 2).
Proof.
  assert (Hsz : size (base (ints 100 [1; 2; 3])) <= INT_MAX + 1)
    by (vm_compute; discriminate).
  split; [exact Hsz|].
  exact (Include_agrees_with_FindIndex Z.eqb moving_alloc
                                       (ints 100 [1; 2; 3]) 2 Hsz).
Defined.

(** X6 on 1, 2 and the calls with 4, 2, 4. *)
Lemma Include_all_includes_witness :
  (forall x : Z, x ∈ [4; 2; 4] -> (x =? x) = true)
  /\ has_equal Z.eqb
       (items (base (Include_all Z.eqb moving_alloc (ints 100 [1; 2])
                                 [4; 2; 4]))) 4
  /\ items (base (Include_all Z.eqb moving_alloc (ints 100 [1; 2]) [4; 2; 4]))
     = [1; 2; 4].
Proof.
  assert (H : forall x : Z, x ∈ [4; 2; 4] -> (x =? x) = true)
    by (intros x _; apply Z.eqb_refl).
  split; [exact H|]. split; [|reflexivity].
  destruct (Include_all_includes Z.eqb moving_alloc (ints 100 [1; 2])
                                 [4; 2; 4] H) as [Hin _].
  apply Hin. by left.
Defined.

(** X8 on the buffer holding 7, grown by 2 and then by 3. *)
Lemma grow_twice_witness :
  0 <= 2 /\ 0 <= 3 /\ size (Vector 100 [7]) + 2 + 3 <= int_max_size
  /\ int_max_size <= SIZE_MAX
  /\ exists va vb pa pb,
       grow 0 moving_alloc int_max_size (Vector 100 [7]) 2 = Done va pa
       /\ grow 0 moving_alloc int_max_size va 3 = Done vb pb
       /\ items vb = [7; 0; 0; 0; 0; 0]
       /\ pb - data vb = pa - data va + 2.
Proof.
  assert (Ha : 0 <= 2) by lia. assert (Hb : 0 <= 3) by lia.
  assert (Hfit : size (Vector 100 [7]) + 2 + 3 <= int_max_size)
    by (vm_compute; discriminate).
  assert (Hmax : int_max_size <= SIZE_MAX) by (vm_compute; discriminate).
  split; [exact Ha|]. split; [exact Hb|]. split; [exact Hfit|].
  split; [exact Hmax|].
  destruct (grow_twice 0 moving_alloc int_max_size (Vector 100 [7]) 2 3
                       Ha Hb Hfit Hmax)
    as (va & vb & vab & v0 & pa & pb & pab & p0
        & Hga & Hgb & Hgab & _ & Hit & Hp & _).
  exists va, vb, pa, pb. split; [exact Hga|]. split; [exact Hgb|].
  split; [|exact Hp].
  rewrite Hit. injection Hgab as <- _. reflexivity.
Defined.

(** X9 on an [AutoFreeSmallVector<char *, 4>] holding two buffers and a
    null pointer, with a 32-bit [uint]. *)
Lemma Clear_then_destroy_witness :
  size (Vector 4096 [7000; 0; 9000]) < 2 ^ 32
  /\ lt (length (items (Vector 4096 [7000; 0; 9000]))) 4
  /\ lt 0 1
  /\ owned RawFree [7000; 0; 9000] (heap_of RawFree [7000; 9000; 5000])
  /\ exists w',
       AutoFreeSmallVector_Clear 32 4 (strings 4096 [7000; 0; 9000])
         (heap_of RawFree [7000; 9000; 5000])
       = Some (strings 4096 [], w')
       /\ AutoFreeSmallVector_Clear 32 1 (strings 4096 []) w'
          = Some (strings 4096 [], w')
       /\ AutoFreeSmallVector_destroy 32 1 (strings 4096 []) w' = Some w'.
Proof.
  assert (H1 : size (Vector 4096 [7000; 0; 9000]) < 2 ^ 32)
    by (vm_compute; reflexivity).
  assert (H2 : lt (length (items (Vector 4096 [7000; 0; 9000]))) 4)
    by (simpl; lia).
  assert (H3 : lt 0 1) by lia.
  split; [exact H1|]. split; [exact H2|]. split; [exact H3|].
  split; [exact strings_owned|].
  destruct (Clear_then_destroy_is_quiet 32 4 (Vector 4096 [7000; 0; 9000])
              (heap_of RawFree [7000; 9000; 5000]) 4 1 H1 H2 H3)
    as ((Hex & Hquiet) & _).
  destruct (Hex strings_owned) as (w' & HC).
  destruct (Hquiet _ _ HC) as (_ & HC2 & HD).
  exists w'. split; [exact HC|]. split; [exact HC2|exact HD].
Defined.

(** X10 on the same vector and its copy. *)
Lemma Clear_of_copy_witness :
  size (Vector 4096 [7000; 0; 9000]) < 2 ^ 32
  /\ lt (length (items (Vector 4096 [7000; 0; 9000]))) 4
  /\ items (Vector 4096 [7000; 0; 9000]) !! 0%nat = Some 7000
  /\ 7000 <> 0
  /\ owned RawFree [7000; 0; 9000] (heap_of RawFree [7000; 9000; 5000])
  /\ exists u w1,
       AutoFreeSmallVector_Clear 32 4 (strings 4096 [7000; 0; 9000])
         (heap_of RawFree [7000; 9000; 5000])
       = Some (u, w1)
       /\ forall fuel' : nat,
            AutoFreeSmallVector_Clear 32 fuel'
              (AutoFreeSmallVector_copy moving_alloc
                 (strings 4096 [7000; 0; 9000])) w1
            = None.
Proof.
  assert (H1 : size (Vector 4096 [7000; 0; 9000]) < 2 ^ 32)
    by (vm_compute; reflexivity).
  assert (H2 : lt (length (items (Vector 4096 [7000; 0; 9000]))) 4)
    by (simpl; lia).
  assert (H3 : items (Vector 4096 [7000; 0; 9000]) !! 0%nat = Some 7000)
    by reflexivity.
  assert (H4 : 7000 <> 0) by lia.
  split; [exact H1|]. split; [exact H2|]. split; [exact H3|].
  split; [exact H4|]. split; [exact strings_owned|].
  destruct (Clear_of_copy_is_undefined 32 moving_alloc 4
              (Vector 4096 [7000; 0; 9000])
              (heap_of RawFree [7000; 9000; 5000]) 4 0 7000 H1 H2 H3 H4)
    as (HF & _).
  destruct (HF strings_owned) as (_ & u & w1 & HC1 & HC2).
  exists u, w1. split; [exact HC1|exact HC2].
Defined.

(** X11 on 1, 2, 3, the calls with 5, 2, 6 and the member 3. *)
Lemma FindIndex_stable_witness :
  has_equal Z.eqb (items (base (ints 100 [1; 2; 3]))) 3
  /\ FindIndex Z.eqb
       (Include_all Z.eqb moving_alloc (ints 100 [1; 2; 3]) [5; 2; 6]) 3
     = 2.
Proof.
  assert (Hh : has_equal Z.eqb (items (base (ints 100 [1; 2; 3]))) 3).
  { exists 3. split; [|reflexivity]. simpl. apply list_elem_of_In. simpl. tauto. }
  split; [exact Hh|].
  rewrite (FindIndex_stable_under_Include Z.eqb moving_alloc
             (ints 100 [1; 2; 3]) [5; 2; 6] 3 Hh).
  reflexivity.
Defined.
